(** * wa-captor: the WhatsApp event relay of [wa-qr-ia/wa-captor/index.js]

    A shallow embedding of the three event handlers of [index.js]
    ([qr], [ready], [message]) together with the pieces of the JavaScript
    runtime they rely on: truthiness and [||], [String.prototype.split],
    [Array.prototype.includes], insertion-ordered objects,
    [JSON.stringify], and [crypto.createHmac('sha256', key)].

    Strings are byte strings: a JavaScript string is represented by its
    UTF-8 encoding (the encoding Node uses when a string is fed to an HMAC
    or sent as a request body).  Every character the code inspects ([@],
    the JSON escapes) is ASCII, and an ASCII byte never occurs inside a
    multi-byte UTF-8 sequence, so cutting at a byte and cutting at the
    UTF-16 code unit agree.  Strings with lone surrogates have no UTF-8
    form and are outside the model. *)

From Stdlib Require Import ZArith List String Ascii Bool Lia DecimalString.
From stdpp Require Import base option list strings gmap.

Import ListNotations.
Local Open Scope string_scope.

(* ===================================================================== *)
(** ** Bytes and hexadecimal text *)
(* ===================================================================== *)

Module Bytes.

Local Open Scope Z_scope.

(** A byte is a [Z] in [0, 256). *)
Definition of_ascii (c : ascii) : Z := Z.of_N (N_of_ascii c).
Definition to_ascii (b : Z) : ascii := ascii_of_N (Z.to_N (b mod 256)).

Definition of_string (s : string) : list Z :=
  List.map of_ascii (list_ascii_of_string s).

Definition hex_digit (d : Z) : ascii :=
  if d <? 10 then to_ascii (48 + d) else to_ascii (87 + d).

(** [Buffer.toString('hex')]: two lower-case digits per byte. *)
Fixpoint to_hex (bs : list Z) : string :=
  match bs with
  | [] => EmptyString
  | b :: rest =>
      String (hex_digit (Z.shiftr b 4))
        (String (hex_digit (Z.land b 15)) (to_hex rest))
  end.

(** Big-endian bytes of a word, [n] bytes wide. *)
Fixpoint be_bytes (n : nat) (x : Z) : list Z :=
  match n with
  | O => []
  | S k => Z.land (Z.shiftr x (8 * Z.of_nat k)) 255 :: be_bytes k x
  end.

Fixpoint be_word (bs : list Z) (acc : Z) : Z :=
  match bs with
  | [] => acc
  | b :: rest => be_word rest (Z.lor (Z.shiftl acc 8) b)
  end.

End Bytes.

(* ===================================================================== *)
(** ** SHA-256 (FIPS 180-4) and HMAC (RFC 2104)

    [crypto.createHmac('sha256', key).update(body).digest('hex')] is a
    call into Node's crypto module; the functions below are what that call
    computes, written out so that signatures can be evaluated. *)
(* ===================================================================== *)

Module SHA256.

Local Open Scope Z_scope.

Definition mask32 : Z := 0xffffffff.
Definition w32 (x : Z) : Z := Z.land x mask32.
Definition add32 (x y : Z) : Z := w32 (x + y).
Definition not32 (x : Z) : Z := Z.lxor x mask32.
Definition rotr (n x : Z) : Z :=
  Z.lor (Z.shiftr x n) (w32 (Z.shiftl x (32 - n))).

Definition Ch (x y z : Z) : Z := Z.lxor (Z.land x y) (Z.land (not32 x) z).
Definition Maj (x y z : Z) : Z :=
  Z.lxor (Z.lxor (Z.land x y) (Z.land x z)) (Z.land y z).
Definition Sigma0 (x : Z) : Z :=
  Z.lxor (Z.lxor (rotr 2 x) (rotr 13 x)) (rotr 22 x).
Definition Sigma1 (x : Z) : Z :=
  Z.lxor (Z.lxor (rotr 6 x) (rotr 11 x)) (rotr 25 x).
Definition sigma0 (x : Z) : Z :=
  Z.lxor (Z.lxor (rotr 7 x) (rotr 18 x)) (Z.shiftr x 3).
Definition sigma1 (x : Z) : Z :=
  Z.lxor (Z.lxor (rotr 17 x) (rotr 19 x)) (Z.shiftr x 10).

(** The round constants and the initial hash value are fractional parts of
    roots of the first primes, 32 bits of each. *)
Definition is_prime (p : Z) : bool :=
  (1 <? p)
  && List.forallb (fun d => negb (p mod Z.of_nat d =? 0))
       (List.seq 2 (Z.to_nat p - 2)).

Definition primes_below (bound : nat) : list Z :=
  List.filter is_prime (List.map Z.of_nat (List.seq 0 bound)).

(** The largest [r] with [r^3 <= n], found one bit at a time from bit
    [bits - 1] down. *)
Fixpoint cube_root (bits : nat) (n r : Z) : Z :=
  match bits with
  | O => r
  | S b =>
      let r' := r + 2 ^ Z.of_nat b in
      if r' * r' * r' <=? n then cube_root b n r' else cube_root b n r
  end.

(** First 32 bits of the fractional part of the cube root of [p]. *)
Definition frac_cbrt (p : Z) : Z := w32 (cube_root 40 (p * 2 ^ 96) 0).

(** First 32 bits of the fractional part of the square root of [p]. *)
Definition frac_sqrt (p : Z) : Z := w32 (Z.sqrt (p * 2 ^ 64)).

(** The 64 round constants: from the 64 primes up to 311. *)
Definition K : list Z :=
  Eval vm_compute in List.map frac_cbrt (primes_below 312).

(** The initial hash value: from the 8 primes up to 19. *)
Definition H0 : list Z :=
  Eval vm_compute in List.map frac_sqrt (primes_below 20).

(** Padding: a 1 bit, zeros up to 56 mod 64, the bit length on 8 bytes. *)
Definition pad (msg : list Z) : list Z :=
  let len := Z.of_nat (List.length msg) in
  let zeros := Z.to_nat ((55 - len) mod 64) in
  msg ++ [0x80] ++ List.repeat 0 zeros ++ Bytes.be_bytes 8 (8 * len).

(** Cut a byte list into groups of [n] bytes ([fuel] bounds the count). *)
Fixpoint chunks (fuel n : nat) (bs : list Z) : list (list Z) :=
  match fuel, bs with
  | O, _ | _, [] => []
  | S f, _ => List.firstn n bs :: chunks f n (List.skipn n bs)
  end.

Definition words_of_block (block : list Z) : list Z :=
  List.map (fun q => Bytes.be_word q 0) (chunks 16 4 block).

(** Message schedule, kept newest first: [rev_w] holds W[t-1], W[t-2], ... *)
Fixpoint extend (n : nat) (rev_w : list Z) : list Z :=
  match n with
  | O => rev_w
  | S k =>
      let w i := List.nth i rev_w 0 in
      let next :=
        add32 (add32 (sigma1 (w 1%nat)) (w 6%nat))
              (add32 (sigma0 (w 14%nat)) (w 15%nat)) in
      extend k (next :: rev_w)
  end.

Definition schedule (block : list Z) : list Z :=
  List.rev (extend 48 (List.rev (words_of_block block))).

Record regs := Regs { ra : Z; rb : Z; rc : Z; rd : Z;
                      re : Z; rf : Z; rg : Z; rh : Z }.

Definition round (s : regs) (kw : Z * Z) : regs :=
  let '(k, w) := kw in
  let t1 :=
    add32 (add32 (add32 (add32 (rh s) (Sigma1 (re s)))
                        (Ch (re s) (rf s) (rg s))) k) w in
  let t2 := add32 (Sigma0 (ra s)) (Maj (ra s) (rb s) (rc s)) in
  Regs (add32 t1 t2) (ra s) (rb s) (rc s)
       (add32 (rd s) t1) (re s) (rf s) (rg s).

Definition regs_of (h : list Z) : regs :=
  let n i := List.nth i h 0 in
  Regs (n 0%nat) (n 1%nat) (n 2%nat) (n 3%nat)
       (n 4%nat) (n 5%nat) (n 6%nat) (n 7%nat).

Definition list_of (s : regs) : list Z :=
  [ra s; rb s; rc s; rd s; re s; rf s; rg s; rh s].

Definition compress (h : list Z) (block : list Z) : list Z :=
  let s := List.fold_left round (List.combine K (schedule block)) (regs_of h) in
  List.map (fun p => add32 (fst p) (snd p)) (List.combine h (list_of s)).

Definition digest (msg : list Z) : list Z :=
  let p := pad msg in
  let h := List.fold_left compress (chunks (List.length p) 64 p) H0 in
  List.concat (List.map (Bytes.be_bytes 4) h).

Definition block_size : nat := 64.

(** HMAC: keys longer than a block are hashed first, then zero padded. *)
Definition hmac_key (key : list Z) : list Z :=
  let k := if (block_size <? List.length key)%nat then digest key else key in
  k ++ List.repeat 0 (block_size - List.length k).

Definition hmac (key msg : list Z) : list Z :=
  let k := hmac_key key in
  let ipad := List.map (Z.lxor 0x36) k in
  let opad := List.map (Z.lxor 0x5c) k in
  digest (opad ++ digest (ipad ++ msg)).

End SHA256.

(** [crypto.createHmac('sha256', key).update(body).digest('hex')]. *)
Definition createHmac_sha256_hex (key body : string) : string :=
  Bytes.to_hex (SHA256.hmac (Bytes.of_string key) (Bytes.of_string body)).

(* ===================================================================== *)
(** ** JavaScript values *)
(* ===================================================================== *)

(** The values the handlers compute with.  Numbers are the integers
    ([msg.timestamp] is a count of seconds). *)
Inductive jsval : Type :=
| JUndefined
| JNull
| JBool (b : bool)
| JNum (n : Z)
| JStr (s : string).

#[global] Instance jsval_eq_dec : EqDecision jsval.
Proof. solve_decision. Defined.

(** ToBoolean. *)
Definition truthy (v : jsval) : bool :=
  match v with
  | JUndefined | JNull => false
  | JBool b => b
  | JNum n => negb (n =? 0)%Z
  | JStr s => negb (String.eqb s "")
  end.

(** [a || b]. *)
Definition js_or (a b : jsval) : jsval := if truthy a then a else b.

(** A property that holds a string or is missing. *)
Definition js_opt (o : option string) : jsval :=
  match o with
  | Some s => JStr s
  | None => JUndefined
  end.

(** A field of an envelope is absent when its value is [null] (printed as
    [null] by [JSON.stringify]) or [undefined] (not printed at all). *)
Definition absent (v : jsval) : bool :=
  match v with
  | JUndefined | JNull => true
  | _ => false
  end.

Definition present (v : jsval) : bool := negb (absent v).

(** [s.split(sep)] for a one-character separator. *)
Fixpoint js_split (sep : ascii) (s : string) : list string :=
  match s with
  | EmptyString => [EmptyString]
  | String c rest =>
      if Ascii.eqb c sep then EmptyString :: js_split sep rest
      else match js_split sep rest with
           | [] => [String c EmptyString]
           | h :: t => String c h :: t
           end
  end.

(** [arr[i]] on an array of strings. *)
Definition js_index (arr : list string) (i : nat) : jsval :=
  match List.nth_error arr i with
  | Some s => JStr s
  | None => JUndefined
  end.

(** [arr.includes(v)] on an array of strings: SameValueZero is equality of
    values here, and a string compares equal to the same string only. *)
Definition includes (arr : list string) (v : jsval) : bool :=
  List.existsb (fun s => bool_decide (JStr s = v)) arr.

(* ===================================================================== *)
(** ** Objects and [JSON.stringify] *)
(* ===================================================================== *)

(** An object is its properties in insertion order. *)
Definition obj : Type := list (string * jsval).

Fixpoint obj_get (k : string) (o : obj) : jsval :=
  match o with
  | [] => JUndefined
  | (k', v) :: rest => if String.eqb k' k then v else obj_get k rest
  end.

(** [o[k] = v]: an existing property keeps its place, a new one goes last. *)
Fixpoint obj_set (k : string) (v : jsval) (o : obj) : obj :=
  match o with
  | [] => [(k, v)]
  | (k', v') :: rest =>
      if String.eqb k' k then (k', v) :: rest else (k', v') :: obj_set k v rest
  end.

Definition has_key (k : string) (o : obj) : bool :=
  List.existsb (fun kv => String.eqb (fst kv) k) o.

Module JSON.

Definition dquote : ascii := Eval cbv in ascii_of_nat 34.
Definition backslash : ascii := Eval cbv in ascii_of_nat 92.

Definition hex2 (n : N) : string :=
  Bytes.to_hex [Z.of_N n].

(** QuoteJSONString, one character at a time. *)
Definition escape (c : ascii) : string :=
  let n := N_of_ascii c in
  if (n =? 8)%N then "\b"
  else if (n =? 9)%N then "\t"
  else if (n =? 10)%N then "\n"
  else if (n =? 12)%N then "\f"
  else if (n =? 13)%N then "\r"
  else if (n =? 34)%N then String backslash (String dquote EmptyString)
  else if (n =? 92)%N then String backslash (String backslash EmptyString)
  else if (n <? 32)%N then String.append "\u00" (hex2 n)
  else String c EmptyString.

Fixpoint escape_all (s : string) : string :=
  match s with
  | EmptyString => EmptyString
  | String c rest => String.append (escape c) (escape_all rest)
  end.

Definition quote (s : string) : string :=
  String dquote (String.append (escape_all s) (String dquote EmptyString)).

(** Number::toString for an integer below 10^21 in size. *)
Definition number (n : Z) : string :=
  DecimalString.NilZero.string_of_int (Z.to_int n).

(** [None] for a value that [JSON.stringify] leaves out of an object. *)
Definition value (v : jsval) : option string :=
  match v with
  | JUndefined => None
  | JNull => Some "null"
  | JBool true => Some "true"
  | JBool false => Some "false"
  | JNum n => Some (number n)
  | JStr s => Some (quote s)
  end.

Definition member (kv : string * jsval) : option string :=
  match value (snd kv) with
  | Some text => Some (String.append (quote (fst kv)) (String.append ":" text))
  | None => None
  end.

Fixpoint join (sep : string) (parts : list string) : string :=
  match parts with
  | [] => EmptyString
  | [p] => p
  | p :: rest => String.append p (String.append sep (join sep rest))
  end.

(** [JSON.stringify(o)] for an object of primitive values. *)
Definition stringify (o : obj) : string :=
  String.append "{"
    (String.append (join "," (omap member o)) "}").

End JSON.

(* ===================================================================== *)
(** ** What the session client hands to the handlers *)
(* ===================================================================== *)

(** The raw message: the properties of [msg] that the handler reads, typed
    as the session client declares them.  [from] is the chat identifier;
    [author] is there in groups only; [None] is a property that is missing
    or null. *)
Module Message.
Record t : Type := {
  from : string;
  author : option string;
  timestamp : Z;
  body : option string;
  hasMedia : bool
}.
End Message.

(** The result of [msg.getChat()]. *)
Module Chat.
Record t : Type := {
  isGroup : bool;
  name : string
}.
End Chat.

(** The result of a contact lookup. *)
Module Contact.
Record t : Type := {
  pushname : option string;
  name : option string;
  shortName : option string;
  verifiedName : option string
}.
End Contact.

(** The result of [msg.downloadMedia()]. *)
Module Media.
Record t : Type := {
  mimetype : string;
  filename : option string;
  data : string
}.
End Media.

(** What [fetch] resolves to; it resolves for every HTTP status. *)
Record response : Type := { status : Z }.

(** The module-level constants of [index.js]. *)
Record config : Type := {
  IA_ENDPOINT : string;
  QR_ENDPOINT : string;
  GROUP_WHITELIST : list string;
  HMAC_SECRET : string
}.

(** [process.env.HMAC_SECRET || ''], from the variable as the environment
    has it ([None]: not set). *)
Definition HMAC_SECRET_of_env (v : option string) : string :=
  match js_or (js_opt v) (JStr "") with
  | JStr s => s
  | _ => ""
  end.

(* ===================================================================== *)
(** ** Effects: a trace of I/O and an exception *)
(* ===================================================================== *)

Inductive exn : Type :=
| TypeError (message : string)
| Rejection (message : string).

(** An awaited promise settles one way or the other. *)
Inductive settled (A : Type) : Type :=
| Resolved (a : A)
| Rejected (e : exn).
Arguments Resolved {A} a.
Arguments Rejected {A} e.

(** How the outside world answers during the handling of one event.  A
    lookup may resolve to nothing ([None]: [undefined] or [null]). *)
Record world : Type := {
  getChat_answer : settled Chat.t;
  contact_answer : settled (option Contact.t);
  downloadMedia_answer : settled (option Media.t);
  fetch_answer : settled response;
  qrcode_generate_answer : settled unit
}.

(** The calls a handler makes, in the order it makes them. *)
Inductive io : Type :=
| GetChat
| GetContactById (id : jsval)
| GetContact
| DownloadMedia
| Fetch (url : string) (headers : gmap string string) (body : string)
| QrcodeGenerate (qr : string)
| ConsoleLog (text : string)
| ConsoleError (text : string) (e : option exn).

#[global] Instance exn_eq_dec : EqDecision exn.
Proof. solve_decision. Defined.
#[global] Instance io_eq_dec : EqDecision io.
Proof. solve_decision. Defined.

(** A computation: the calls made, then a value or a thrown exception. *)
Definition M (A : Type) : Type := list io * (exn + A).

Definition ret {A} (a : A) : M A := ([], inr a).
Definition throw {A} (e : exn) : M A := ([], inl e).

Definition bind {A B} (m : M A) (f : A -> M B) : M B :=
  match m with
  | (t, inl e) => (t, inl e)
  | (t, inr a) => let '(t', r) := f a in ((t ++ t')%list, r)
  end.

(** [try { m } catch (e) { h e }]. *)
Definition try_catch {A} (m : M A) (h : exn -> M A) : M A :=
  match m with
  | (t, inl e) => let '(t', r) := h e in ((t ++ t')%list, r)
  | (t, inr a) => (t, inr a)
  end.

Notation "'let*' x ':=' m 'in' k" := (bind m (fun x => k))
  (at level 10, x name, m at level 100, k at level 200).

(** [await p] for a call [c] that settles as [p]. *)
Definition await {A} (c : io) (p : settled A) : M A :=
  match p with
  | Resolved a => ([c], inr a)
  | Rejected e => ([c], inl e)
  end.

Definition trace {A} (m : M A) : list io := fst m.

Definition returns {A} (m : M A) : bool :=
  match snd m with
  | inr _ => true
  | inl _ => false
  end.

Definition is_fetch (c : io) : bool :=
  match c with
  | Fetch _ _ _ => true
  | _ => false
  end.

Definition is_console_error (c : io) : bool :=
  match c with
  | ConsoleError _ _ => true
  | _ => false
  end.

Section Calls.

Variable w : world.

Definition getChat : M Chat.t := await GetChat (getChat_answer w).

Definition getContactById (id : jsval) : M (option Contact.t) :=
  await (GetContactById id) (contact_answer w).

Definition getContact : M (option Contact.t) :=
  await GetContact (contact_answer w).

Definition downloadMedia : M (option Media.t) :=
  await DownloadMedia (downloadMedia_answer w).

Definition fetch (url : string) (headers : gmap string string)
    (body : string) : M response :=
  await (Fetch url headers body) (fetch_answer w).

Definition qrcode_generate (qr : string) : M unit :=
  await (QrcodeGenerate qr) (qrcode_generate_answer w).

End Calls.

Definition console_log (text : string) : M unit := ([ConsoleLog text], inr tt).
Definition console_error (text : string) (e : option exn) : M unit :=
  ([ConsoleError text e], inr tt).

(* ===================================================================== *)
(** ** The handlers of [index.js] *)
(* ===================================================================== *)

(** Lines 26-30, 42-46 and 92-96: the headers of a request. *)
Definition sign_headers (secret body : string) : gmap string string :=
  let headers : gmap string string :=
    {[ "Content-Type" := "application/json" ]} in
  if truthy (JStr secret)
  then <[ "x-signature" := createHmac_sha256_hex secret body ]> headers
  else headers.

(** Line 57, the condition of the early [return]. *)
Definition whitelist_miss (whitelist : list string) (isGroup : bool)
    (groupName : jsval) : bool :=
  isGroup
  && truthy (JNum (Z.of_nat (List.length whitelist)))
  && negb (includes whitelist groupName).

(** Line 55. *)
Definition groupName_of (chat : Chat.t) : jsval :=
  if Chat.isGroup chat then JStr (Chat.name chat) else JNull.

(** Line 65: [(contact && (contact.pushname || ...)) || null]. *)
Definition contact_label (contact : option Contact.t) : jsval :=
  match contact with
  | None => JUndefined
  | Some c =>
      js_or (js_or (js_or (js_opt (Contact.pushname c))
                          (js_opt (Contact.name c)))
                   (js_opt (Contact.shortName c)))
            (js_opt (Contact.verifiedName c))
  end.

Definition senderName_of (contact : option Contact.t) : jsval :=
  js_or (contact_label contact) JNull.

(** Line 67: [msg.author || msg.from || ''], always a string. *)
Definition sender_source (msg : Message.t) : string :=
  match js_or (js_or (js_opt (Message.author msg)) (JStr (Message.from msg)))
              (JStr "") with
  | JStr s => s
  | _ => ""
  end.

Definition at_sign : ascii := "@"%char.

Definition senderNumber_of (msg : Message.t) : jsval :=
  js_or (js_index (js_split at_sign (sender_source msg)) 0) JNull.

(** Line 68. *)
Definition groupId_of (msg : Message.t) (isGroup : bool) : jsval :=
  if isGroup then JStr (Message.from msg) else JNull.

(** Lines 70-81, the object literal. *)
Definition payload_of (msg : Message.t) (chat : Chat.t) (senderName : jsval)
    : obj :=
  let isGroup := Chat.isGroup chat in
  [ ("from_", JStr (Message.from msg));
    ("author", js_or (js_opt (Message.author msg)) JNull);
    ("timestamp", JNum (Message.timestamp msg));
    ("isGroup", JBool isGroup);
    ("groupName", groupName_of chat);
    ("groupId", groupId_of msg isGroup);
    ("senderName", senderName);
    ("senderNumber", senderNumber_of msg);
    ("type", JStr "text");
    ("text", js_or (js_opt (Message.body msg)) JNull) ].

(** Lines 85-88, the four assignments. *)
Definition attach_media (payload : obj) (media : Media.t) : obj :=
  obj_set "data_base64" (JStr (Media.data media))
    (obj_set "filename" (js_or (js_opt (Media.filename media)) (JStr "file.bin"))
       (obj_set "mimetype" (JStr (Media.mimetype media))
          (obj_set "type" (JStr "media") payload))).

Definition no_media : exn :=
  TypeError "Cannot read properties of undefined (reading 'mimetype')".

Section Handlers.

Variable cfg : config.
Variable w : world.

(** Lines 25-31 and 41-47: publish [{ qr }] to the QR endpoint. *)
Definition post_qr (qr : jsval) : M unit :=
  let body := JSON.stringify [("qr", qr)] in
  let headers := sign_headers (HMAC_SECRET cfg) body in
  let* _ := fetch w (QR_ENDPOINT cfg) headers body in
  ret tt.

(** [client.on('qr', ...)], lines 21-35. *)
Definition on_qr (qr : string) : M unit :=
  let* _ := console_log "Escaneá este QR:" in
  let* _ := qrcode_generate w qr in
  try_catch (post_qr (JStr qr))
    (fun e => console_error "No se pudo publicar el QR" (Some e)).

(** [client.on('ready', ...)], lines 37-49. *)
Definition on_ready : M unit :=
  let* _ := console_log "WA listo ✅" in
  try_catch (post_qr JNull) (fun _ => ret tt).

(** Lines 60-66: the lookup of the sender's name, with its own [catch]. *)
Definition lookup_senderName (msg : Message.t) : M jsval :=
  try_catch
    (let* contact :=
       (if truthy (js_opt (Message.author msg))
        then getContactById w (js_opt (Message.author msg))
        else getContact w) in
     ret (senderName_of contact))
    (fun _ => ret JNull).

(** Lines 83-89. *)
Definition with_media (msg : Message.t) (payload : obj) : M obj :=
  if Message.hasMedia msg then
    let* media := downloadMedia w in
    match media with
    | Some m => ret (attach_media payload m)
    | None => throw no_media
    end
  else ret payload.

(** Lines 59-89: the envelope of a message that passed the filter. *)
Definition build_payload (msg : Message.t) (chat : Chat.t) : M obj :=
  let* senderName := lookup_senderName msg in
  with_media msg (payload_of msg chat senderName).

(** Lines 91-102: serialize, sign, post to the ingestion endpoint. *)
Definition post_message (payload : obj) : M unit :=
  let body := JSON.stringify payload in
  let headers := sign_headers (HMAC_SECRET cfg) body in
  let* _ := fetch w (IA_ENDPOINT cfg) headers body in
  ret tt.

(** [client.on('message', ...)], lines 51-106. *)
Definition on_message (msg : Message.t) : M unit :=
  try_catch
    (let* chat := getChat w in
     let isGroup := Chat.isGroup chat in
     let groupName := groupName_of chat in
     if whitelist_miss (GROUP_WHITELIST cfg) isGroup groupName then ret tt
     else
       let* payload := build_payload msg chat in
       post_message payload)
    (fun e => console_error "Error" (Some e)).

End Handlers.

(** The events of the session client. *)
Inductive event : Type :=
| Qr (qr : string)
| Ready
| MessageEv (msg : Message.t).

Definition handle (cfg : config) (w : world) (ev : event) : M unit :=
  match ev with
  | Qr qr => on_qr cfg w qr
  | Ready => on_ready cfg w
  | MessageEv msg => on_message cfg w msg
  end.

(** The events of a session handled in turn, each in the world it meets:
    the case where an event arrives after the handler of the one before it
    has settled (handlers of events that overlap interleave their calls;
    that is not described here).  An exception that leaves a handler is
    not caught by anything: it ends the run, and the events after it are
    not handled. *)
Fixpoint run (cfg : config) (evs : list (world * event)) : M unit :=
  match evs with
  | [] => ret tt
  | (w, ev) :: rest => let* _ := handle cfg w ev in run cfg rest
  end.

(* ===================================================================== *)
(** ** Vocabulary of the properties *)
(* ===================================================================== *)

(** [m] ends normally with the value [a]. *)
Definition produces {A} (m : M A) (a : A) : Prop := snd m = inr a.

(** The envelope [p] is what [on_message] serializes for [msg] in [w]:
    the chat lookup answered, the filter let the message through, and
    lines 59-89 built [p]. *)
Definition envelope_of (cfg : config) (w : world) (msg : Message.t)
    (p : obj) : Prop :=
  exists chat,
    getChat_answer w = Resolved chat
    /\ whitelist_miss (GROUP_WHITELIST cfg) (Chat.isGroup chat)
         (groupName_of chat) = false
    /\ produces (build_payload w msg chat) p.

(** The request that carries the envelope [p] to the ingestion endpoint. *)
Definition delivery (cfg : config) (p : obj) : io :=
  Fetch (IA_ENDPOINT cfg)
        (sign_headers (HMAC_SECRET cfg) (JSON.stringify p))
        (JSON.stringify p).

(** The request that publishes [{ qr }] to the QR endpoint. *)
Definition qr_request (cfg : config) (qr : jsval) : io :=
  Fetch (QR_ENDPOINT cfg)
        (sign_headers (HMAC_SECRET cfg) (JSON.stringify [("qr", qr)]))
        (JSON.stringify [("qr", qr)]).

(** The two groups of fields of an envelope. *)
Definition text_group (p : obj) : bool := present (obj_get "text" p).

Definition media_group (p : obj) : bool :=
  present (obj_get "mimetype" p)
  && present (obj_get "filename" p)
  && present (obj_get "data_base64" p).

Definition no_media_field (p : obj) : bool :=
  negb (has_key "mimetype" p)
  && negb (has_key "filename" p)
  && negb (has_key "data_base64" p).

(** The group filter as a predicate on the chat: the message goes on. *)
Definition shouldForward (whitelist : list string) (chat : Chat.t) : bool :=
  negb (whitelist_miss whitelist (Chat.isGroup chat) (groupName_of chat)).

(** The part of [s] before the first [c]; all of [s] when there is none. *)
Fixpoint before_first (c : ascii) (s : string) : string :=
  match s with
  | EmptyString => EmptyString
  | String a rest =>
      if Ascii.eqb a c then EmptyString else String a (before_first c rest)
  end.

(** [author] if the message has one, else [from]. *)
Definition author_or_from (msg : Message.t) : string :=
  match Message.author msg with
  | Some a => if String.eqb a "" then Message.from msg else a
  | None => Message.from msg
  end.

(** The contact lookup of a message: which call, and whether it failed. *)
Definition lookup_call (msg : Message.t) : io :=
  if truthy (js_opt (Message.author msg))
  then GetContactById (js_opt (Message.author msg))
  else GetContact.

Definition lookup_failed (w : world) : Prop :=
  match contact_answer w with
  | Rejected _ | Resolved None => True
  | Resolved (Some _) => False
  end.

Definition download_failed (w : world) : Prop :=
  match downloadMedia_answer w with
  | Rejected _ | Resolved None => True
  | Resolved (Some _) => False
  end.

Definition post_rejected (w : world) : Prop :=
  match fetch_answer w with
  | Rejected _ => True
  | Resolved _ => False
  end.

Definition any_media_field (p : obj) : bool :=
  present (obj_get "mimetype" p)
  || present (obj_get "filename" p)
  || present (obj_get "data_base64" p).

(** "Exactly one of the two groups, keyed by [type]". *)
Definition exactly_one_group (p : obj) : bool :=
  if bool_decide (obj_get "type" p = JStr "text")
  then text_group p && negb (any_media_field p)
  else if bool_decide (obj_get "type" p = JStr "media")
  then media_group p && negb (text_group p)
  else false.

(** "The substring before the first [@], absent exactly when the source
    field is empty". *)
Definition senderNumber_by_source (msg : Message.t) : jsval :=
  if String.eqb (author_or_from msg) "" then JNull
  else JStr (before_first at_sign (author_or_from msg)).

(** "The body verbatim, absent when the body is absent or null". *)
Definition text_verbatim (msg : Message.t) : jsval :=
  match Message.body msg with
  | Some s => JStr s
  | None => JNull
  end.

(** The world [w] with another answer to the contact lookup. *)
Definition with_contact_answer (w : world)
    (answer : settled (option Contact.t)) : world := {|
  getChat_answer := getChat_answer w;
  contact_answer := answer;
  downloadMedia_answer := downloadMedia_answer w;
  fetch_answer := fetch_answer w;
  qrcode_generate_answer := qrcode_generate_answer w
|}.

(** The [senderName] that lines 60-66 end with. *)
Definition senderName_in (w : world) : jsval :=
  match contact_answer w with
  | Resolved contact => senderName_of contact
  | Rejected _ => JNull
  end.

(* ===================================================================== *)
(** ** Sample inputs *)
(* ===================================================================== *)

Module Sample.

Definition cfg : config := {|
  IA_ENDPOINT := "http://localhost:8000/ingesta";
  QR_ENDPOINT := "http://localhost:8000/qr";
  GROUP_WHITELIST := ["Trabajo"];
  HMAC_SECRET := "s3cr3t"
|}.

(** No whitelist, no secret: everything is forwarded, unsigned. *)
Definition cfg_open : config := {|
  IA_ENDPOINT := "http://localhost:8000/ingesta";
  QR_ENDPOINT := "http://localhost:8000/qr";
  GROUP_WHITELIST := [];
  HMAC_SECRET := ""
|}.

Definition private_chat : Chat.t := {| Chat.isGroup := false; Chat.name := "Ana" |}.
Definition familia : Chat.t := {| Chat.isGroup := true; Chat.name := "Familia" |}.
Definition trabajo : Chat.t := {| Chat.isGroup := true; Chat.name := "Trabajo" |}.

Definition ana : Contact.t := {|
  Contact.pushname := Some "Ana";
  Contact.name := None;
  Contact.shortName := None;
  Contact.verifiedName := None
|}.

Definition jpeg : Media.t := {|
  Media.mimetype := "image/jpeg";
  Media.filename := None;
  Media.data := "/9j/4AAQSkZJRg=="
|}.

(** Scenario 1 of the specification. *)
Definition hola : Message.t := {|
  Message.from := "5491100000000@c.us";
  Message.author := None;
  Message.timestamp := 1700000000;
  Message.body := Some "hola";
  Message.hasMedia := false
|}.

(** A message without text and without media. *)
Definition blank : Message.t := {|
  Message.from := "5491100000000@c.us";
  Message.author := None;
  Message.timestamp := 1700000001;
  Message.body := Some "";
  Message.hasMedia := false
|}.

(** A photo with a caption. *)
Definition photo : Message.t := {|
  Message.from := "5491100000000@c.us";
  Message.author := None;
  Message.timestamp := 1700000002;
  Message.body := Some "mira esto";
  Message.hasMedia := true
|}.

(** A message in a group: [from] is the group, [author] the sender. *)
Definition in_group : Message.t := {|
  Message.from := "120363000000000000@g.us";
  Message.author := Some "5491100000000@c.us";
  Message.timestamp := 1700000003;
  Message.body := Some "buen dia";
  Message.hasMedia := false
|}.

(** A message whose chat identifier has nothing before the [@]. *)
Definition no_number : Message.t := {|
  Message.from := "@broadcast";
  Message.author := None;
  Message.timestamp := 1700000004;
  Message.body := Some "hola";
  Message.hasMedia := false
|}.

Definition world_with (chat : Chat.t) : world := {|
  getChat_answer := Resolved chat;
  contact_answer := Resolved (Some ana);
  downloadMedia_answer := Resolved (Some jpeg);
  fetch_answer := Resolved {| status := 200 |};
  qrcode_generate_answer := Resolved tt
|}.

Definition online : world := world_with private_chat.

(** The sink cannot be reached: every POST is rejected. *)
Definition sink_down : world := {|
  getChat_answer := Resolved private_chat;
  contact_answer := Resolved (Some ana);
  downloadMedia_answer := Resolved (Some jpeg);
  fetch_answer := Rejected (Rejection "connect ECONNREFUSED 127.0.0.1:8000");
  qrcode_generate_answer := Resolved tt
|}.

(** The contact lookup fails. *)
Definition no_contact : world := {|
  getChat_answer := Resolved private_chat;
  contact_answer := Rejected (Rejection "Evaluation failed");
  downloadMedia_answer := Resolved (Some jpeg);
  fetch_answer := Resolved {| status := 200 |};
  qrcode_generate_answer := Resolved tt
|}.

(** The media download fails. *)
Definition no_download : world := {|
  getChat_answer := Resolved private_chat;
  contact_answer := Resolved (Some ana);
  downloadMedia_answer := Rejected (Rejection "Protocol error");
  fetch_answer := Resolved {| status := 200 |};
  qrcode_generate_answer := Resolved tt
|}.

(** The envelope of [hola] in [online]. *)
Definition hola_envelope : obj :=
  payload_of hola private_chat (JStr "Ana").

(** The envelope of [photo] in [online]. *)
Definition photo_envelope : obj :=
  attach_media (payload_of photo private_chat (JStr "Ana")) jpeg.

End Sample.

(* ===================================================================== *)
(** ** The configuration, lines 6-10 *)
(* ===================================================================== *)

(** [s] without the prefix [pat], when it starts with it. *)
Fixpoint strip_prefix (pat s : string) : option string :=
  match pat, s with
  | EmptyString, _ => Some s
  | String a pat', String b s' =>
      if Ascii.eqb a b then strip_prefix pat' s' else None
  | String _ _, EmptyString => None
  end.

(** [s.replace(pat, rep)] for a string pattern and a replacement without
    [$]: the first occurrence of [pat], and only that one. *)
Fixpoint js_replace (pat rep s : string) : string :=
  match strip_prefix pat s with
  | Some rest => String.append rep rest
  | None =>
      match s with
      | EmptyString => EmptyString
      | String c s' => String c (js_replace pat rep s')
      end
  end.

Definition string_of_bytes (bs : list nat) : string :=
  string_of_list_ascii (List.map ascii_of_nat bs).

(** The characters [trim] removes (WhiteSpace and LineTerminator), each in
    UTF-8: tab, LF, VT, FF, CR, space, U+00A0, U+1680, U+2000 to U+200A,
    U+2028, U+2029, U+202F, U+205F, U+3000, U+FEFF. *)
Definition js_whitespace : list string :=
  Eval cbv in
    List.map string_of_bytes
      ([ [9]; [10]; [11]; [12]; [13]; [32]; [194; 160]; [225; 154; 128] ]
       ++ List.map (fun b => [226; 128; b]) (List.seq 128 11)
       ++ [ [226; 128; 168]; [226; 128; 169]; [226; 128; 175];
            [226; 129; 159]; [227; 128; 128]; [239; 187; 191] ])%list.

(** [s] without one leading whitespace character, when it has one. *)
Fixpoint strip_any (ws : list string) (s : string) : option string :=
  match ws with
  | [] => None
  | w :: ws' =>
      match strip_prefix w s with
      | Some rest => Some rest
      | None => strip_any ws' s
      end
  end.

Fixpoint trim_start_fuel (fuel : nat) (s : string) : string :=
  match fuel with
  | O => s
  | S f =>
      match strip_any js_whitespace s with
      | Some rest => trim_start_fuel f rest
      | None => s
      end
  end.

(** [s.trimStart()]. *)
Definition trimStart (s : string) : string :=
  trim_start_fuel (String.length s) s.

(** [s] is whitespace from end to end. *)
Definition is_blank (s : string) : bool := String.eqb (trimStart s) "".

(** [s.trimEnd()]: cut where the rest is whitespace only. *)
Fixpoint trimEnd (s : string) : string :=
  match s with
  | EmptyString => EmptyString
  | String c rest =>
      if is_blank (String c rest) then EmptyString
      else String c (trimEnd rest)
  end.

(** [s.trim()]. *)
Definition trim (s : string) : string := trimEnd (trimStart s).

Definition comma : ascii := ","%char.

(** [text.split(',').map(s => s.trim()).filter(Boolean)], lines 8-9. *)
Definition parse_whitelist (text : string) : list string :=
  List.filter (fun s => truthy (JStr s)) (List.map trim (js_split comma text)).

(** [process.env[key] || fallback]. *)
Definition env_or (env : gmap string string) (key fallback : string)
    : string :=
  match js_or (js_opt (env !! key)) (JStr fallback) with
  | JStr s => s
  | _ => fallback
  end.

(** Lines 6-10, from the environment of the process. *)
Definition resolve_config (env : gmap string string) : config :=
  let ia := env_or env "IA_ENDPOINT" "http://localhost:8000/ingesta" in
  {| IA_ENDPOINT := ia;
     QR_ENDPOINT := env_or env "QR_ENDPOINT" (js_replace "/ingesta" "/qr" ia);
     GROUP_WHITELIST := parse_whitelist (env_or env "GROUP_WHITELIST" "");
     HMAC_SECRET := env_or env "HMAC_SECRET" "" |}.

(** [parts.join(sep)] for a one-character separator. *)
Fixpoint join_with (sep : ascii) (parts : list string) : string :=
  match parts with
  | [] => EmptyString
  | [p] => p
  | p :: rest => String.append p (String sep (join_with sep rest))
  end.

Fixpoint contains_char (c : ascii) (s : string) : bool :=
  match s with
  | EmptyString => false
  | String a rest => Ascii.eqb a c || contains_char c rest
  end.

(** [pat] occurs in [s] at offset [n]. *)
Definition occurs_at (pat s : string) (n : nat) : Prop :=
  exists before rest,
    s = String.append before (String.append pat rest)
    /\ String.length before = n.

(** The offset of the first occurrence of [pat] in [s]. *)
Fixpoint first_index (pat s : string) : option nat :=
  match strip_prefix pat s with
  | Some _ => Some O
  | None =>
      match s with
      | EmptyString => None
      | String _ s' => option_map S (first_index pat s')
      end
  end.

(** A name the whitelist can hold: not empty, no comma, nothing for [trim]
    to remove. *)
Definition listable (name : string) : Prop :=
  name <> "" /\ trim name = name /\ contains_char comma name = false.

Module SampleEnv.

Definition whitelisted : gmap string string :=
  {[ "GROUP_WHITELIST" := " Trabajo , Mi grupo,," ]}.

Definition blank_whitelist : gmap string string :=
  {[ "GROUP_WHITELIST" := " , ," ]}.

Definition other_path : gmap string string :=
  {[ "IA_ENDPOINT" := "http://relay.local/api/messages" ]}.

Definition twice : gmap string string :=
  {[ "IA_ENDPOINT" := "http://relay.local/ingesta/v2/ingesta" ]}.

Definition qr_override : gmap string string :=
  {[ "QR_ENDPOINT" := "http://panel.local/qr" ]}.

(** A group whose name has a comma in it. *)
Definition padres : Chat.t :=
  {| Chat.isGroup := true; Chat.name := "Padres, 3ro B" |}.

(** The session is gone: the chat lookup is rejected. *)
Definition chat_down : world := {|
  getChat_answer := Rejected (Rejection "Session closed");
  contact_answer := Resolved None;
  downloadMedia_answer := Resolved None;
  fetch_answer := Resolved {| status := 200 |};
  qrcode_generate_answer := Resolved tt
|}.

(** Neither the contact lookup nor the media download answers. *)
Definition lookup_and_download_down : world := {|
  getChat_answer := Resolved Sample.private_chat;
  contact_answer := Rejected (Rejection "Evaluation failed");
  downloadMedia_answer := Rejected (Rejection "Protocol error");
  fetch_answer := Resolved {| status := 200 |};
  qrcode_generate_answer := Resolved tt
|}.

(** The QR code cannot be drawn on the terminal. *)
Definition no_terminal : world := {|
  getChat_answer := Resolved Sample.private_chat;
  contact_answer := Resolved None;
  downloadMedia_answer := Resolved None;
  fetch_answer := Resolved {| status := 200 |};
  qrcode_generate_answer := Rejected (TypeError "bad data")
|}.

End SampleEnv.

(** The first of [names] that is a non-empty string, or [null]. *)
Fixpoint first_nonempty (names : list (option string)) : jsval :=
  match names with
  | [] => JNull
  | Some s :: rest => if String.eqb s "" then first_nonempty rest else JStr s
  | None :: rest => first_nonempty rest
  end.

(** The endpoint an event's envelope is for. *)
Definition endpoint_of (cfg : config) (ev : event) : string :=
  match ev with
  | MessageEv _ => IA_ENDPOINT cfg
  | Qr _ | Ready => QR_ENDPOINT cfg
  end.

Definition text_keys : list string :=
  ["from_"; "author"; "timestamp"; "isGroup"; "groupName"; "groupId";
   "senderName"; "senderNumber"; "type"; "text"].

Definition media_keys : list string := ["mimetype"; "filename"; "data_base64"].

Definition keys (o : obj) : list string := List.map fst o.

Fixpoint all_chars (ok : ascii -> bool) (s : string) : bool :=
  match s with
  | EmptyString => true
  | String c rest => ok c && all_chars ok rest
  end.

(** Not a control character. *)
Definition not_control (c : ascii) : bool := (32 <=? N_of_ascii c)%N.

(** One of [0-9a-f]. *)
Definition is_hex_digit (c : ascii) : bool :=
  let n := N_of_ascii c in
  ((48 <=? n) && (n <=? 57) || (97 <=? n) && (n <=? 102))%N.

Definition hex_value (c : ascii) : option N :=
  let n := N_of_ascii c in
  if ((48 <=? n) && (n <=? 57))%N then Some (n - 48)%N
  else if ((97 <=? n) && (n <=? 102))%N then Some (n - 87)%N
  else if ((65 <=? n) && (n <=? 70))%N then Some (n - 55)%N
  else None.

(** The character a two-character escape [\e] stands for. *)
Definition short_escape (e : ascii) : option ascii :=
  let n := N_of_ascii e in
  if (n =? 98)%N then Some (ascii_of_nat 8)
  else if (n =? 116)%N then Some (ascii_of_nat 9)
  else if (n =? 110)%N then Some (ascii_of_nat 10)
  else if (n =? 102)%N then Some (ascii_of_nat 12)
  else if (n =? 114)%N then Some (ascii_of_nat 13)
  else if (n =? 34)%N then Some JSON.dquote
  else if (n =? 92)%N then Some JSON.backslash
  else if (n =? 47)%N then Some "/"%char
  else None.

(** Reading the inside of a JSON string back, by the JSON grammar: an
    escape stands for its character, a raw quote or control character is
    not allowed, anything else stands for itself.  Escapes above [ÿ]
    are not read. *)
Fixpoint json_unescape (s : string) : option string :=
  match s with
  | EmptyString => Some EmptyString
  | String c rest =>
      if Ascii.eqb c JSON.backslash then
        match rest with
        | String e rest' =>
            if Ascii.eqb e "u" then
              match rest' with
              | String h1 (String h2 (String h3 (String h4 rest''))) =>
                  match hex_value h1, hex_value h2, hex_value h3, hex_value h4 with
                  | Some 0%N, Some 0%N, Some a, Some b =>
                      option_map (String (ascii_of_N (16 * a + b)))
                        (json_unescape rest'')
                  | _, _, _, _ => None
                  end
              | _ => None
              end
            else
              match short_escape e with
              | Some x => option_map (String x) (json_unescape rest')
              | None => None
              end
        | EmptyString => None
        end
      else if Ascii.eqb c JSON.dquote || negb (not_control c) then None
      else option_map (String c) (json_unescape rest)
  end.

Definition is_byte (b : Z) : Prop := (0 <= b < 256)%Z.

(* ===================================================================== *)
(** ** The runtime pieces *)
(* ===================================================================== *)

(** Known answers: FIPS 180-4 and RFC 4231. *)
Example sha256_constants :
  List.length SHA256.K = 64%nat
  /\ List.nth 0 SHA256.K 0%Z = 0x428a2f98%Z
  /\ List.nth 63 SHA256.K 0%Z = 0xc67178f2%Z
  /\ List.length SHA256.H0 = 8%nat
  /\ List.nth 0 SHA256.H0 0%Z = 0x6a09e667%Z
  /\ List.nth 7 SHA256.H0 0%Z = 0x5be0cd19%Z.
Proof. repeat split. Qed.

Example sha256_abc :
  Bytes.to_hex (SHA256.digest (Bytes.of_string "abc"))
  = "ba7816bf8f01cfea414140de5dae2223b00361a396177a9cb410ff61f20015ad".
Proof. vm_compute. reflexivity. Qed.

Example sha256_two_blocks :
  Bytes.to_hex (SHA256.digest (List.repeat 97%Z 119))
  = "31eba51c313a5c08226adf18d4a359cfdfd8d2e816b13f4af952f7ea6584dcfb".
Proof. vm_compute. reflexivity. Qed.

Example sha256_pad_boundary :
  Bytes.to_hex (SHA256.digest (List.repeat 97%Z 56))
  = "b35439a4ac6f0948b6d6f9e3c6af0f5f590ce20f1bde7090ef7970686ec6738a".
Proof. vm_compute. reflexivity. Qed.

(** RFC 4231, test case 2. *)
Example hmac_rfc4231_2 :
  createHmac_sha256_hex "Jefe" "what do ya want for nothing?"
  = "5bdcc146bf60754e6a042426089575c75a003f089d2739839dec58b964ec3843".
Proof. vm_compute. reflexivity. Qed.

Arguments JSON.stringify : simpl never.
Arguments sign_headers : simpl never.
Arguments createHmac_sha256_hex : simpl never.

Lemma truthy_JStr (s : string) : truthy (JStr s) = true <-> s <> "".
Proof.
  simpl. rewrite negb_true_iff. split.
  - intros H ->. discriminate.
  - intros H. apply String.eqb_neq. exact H.
Qed.

Lemma truthy_length (A : Type) (l : list A) :
  truthy (JNum (Z.of_nat (List.length l))) = true <-> l <> [].
Proof.
  destruct l as [|a l]; simpl.
  - split; [discriminate | intros H; now elim H].
  - split; [intros _; discriminate | reflexivity].
Qed.

Lemma includes_In (arr : list string) (s : string) :
  includes arr (JStr s) = true <-> In s arr.
Proof.
  unfold includes. rewrite existsb_exists. split.
  - intros (x & Hin & Heq). apply bool_decide_eq_true in Heq.
    injection Heq as ->. exact Hin.
  - intros Hin. exists s. split; [exact Hin | now apply bool_decide_eq_true].
Qed.

Lemma includes_null (arr : list string) : includes arr JNull = false.
Proof.
  unfold includes. induction arr as [|a arr IH]; [reflexivity|].
  cbn [List.existsb]. rewrite IH.
  rewrite bool_decide_eq_false_2 by discriminate. reflexivity.
Qed.

Lemma js_split_head (c : ascii) (s : string) :
  exists rest, js_split c s = before_first c s :: rest.
Proof.
  induction s as [|a s [rest IH]]; simpl.
  - now exists [].
  - destruct (Ascii.eqb a c).
    + now eexists.
    + rewrite IH. now eexists.
Qed.

(** [before_first c s] is a prefix of [s] without [c], and what follows it
    in [s] is nothing or starts with [c]. *)
Lemma before_first_spec (c : ascii) (s : string) :
  (forall a, In a (list_ascii_of_string (before_first c s)) -> a <> c)
  /\ (s = before_first c s
      \/ exists rest, s = String.append (before_first c s) (String c rest)).
Proof.
  induction s as [|a s [IHno IHcut]]; simpl.
  - split; [intros a [] | now left].
  - destruct (Ascii.eqb a c) eqn:E.
    + apply Ascii.eqb_eq in E. subst a. split; [intros a [] | right; now exists s].
    + apply Ascii.eqb_neq in E. split.
      * simpl. intros b [<- | Hb]; [exact E | now apply IHno].
      * destruct IHcut as [Heq | [rest Heq]].
        -- left. now rewrite <- Heq.
        -- right. exists rest.
           change (String a s
                   = String a (String.append (before_first c s) (String c rest))).
           now rewrite <- Heq.
Qed.

Lemma before_first_empty (c : ascii) (s : string) :
  before_first c s = ""
  <-> s = "" \/ exists rest, s = String c rest.
Proof.
  destruct s as [|a s]; simpl.
  - split; [now left | reflexivity].
  - destruct (Ascii.eqb a c) eqn:E.
    + apply Ascii.eqb_eq in E. subst a. split; [right; now exists s | reflexivity].
    + apply Ascii.eqb_neq in E. split; [discriminate|].
      intros [H | [rest H]]; [discriminate | injection H as H _; contradiction].
Qed.

Lemma sender_source_author_or_from (msg : Message.t) :
  sender_source msg = author_or_from msg.
Proof.
  unfold sender_source, author_or_from, js_or.
  destruct (Message.author msg) as [a|]; cbn [js_opt truthy];
    repeat match goal with
      | |- context [String.eqb ?x ""] =>
          let E := fresh "E" in
          destruct (String.eqb x "") eqn:E; cbn [negb truthy]
      end;
    try reflexivity;
    match goal with
    | E : String.eqb ?x "" = true |- _ = ?x =>
        apply String.eqb_eq in E; now rewrite E
    end.
Qed.

Lemma senderNumber_before_first (msg : Message.t) :
  senderNumber_of msg
  = js_or (JStr (before_first at_sign (author_or_from msg))) JNull.
Proof.
  unfold senderNumber_of. rewrite sender_source_author_or_from.
  destruct (js_split_head at_sign (author_or_from msg)) as [rest ->].
  reflexivity.
Qed.

(* ===================================================================== *)
(** ** What each block of the message handler does *)
(* ===================================================================== *)

Section Blocks.

Variable cfg : config.
Variable w : world.

Lemma lookup_senderName_eq (msg : Message.t) :
  lookup_senderName w msg = ([lookup_call msg], inr (senderName_in w)).
Proof.
  unfold lookup_senderName, lookup_call, senderName_in,
    getContactById, getContact.
  destruct (truthy (js_opt (Message.author msg)));
    destruct (contact_answer w) as [c|e]; reflexivity.
Qed.

Lemma build_payload_eq (msg : Message.t) (chat : Chat.t) :
  build_payload w msg chat
  = let p := payload_of msg chat (senderName_in w) in
    if Message.hasMedia msg then
      match downloadMedia_answer w with
      | Resolved (Some m) =>
          ([lookup_call msg; DownloadMedia], inr (attach_media p m))
      | Resolved None => ([lookup_call msg; DownloadMedia], inl no_media)
      | Rejected e => ([lookup_call msg; DownloadMedia], inl e)
      end
    else ([lookup_call msg], inr p).
Proof.
  unfold build_payload. rewrite lookup_senderName_eq.
  unfold with_media, downloadMedia.
  destruct (Message.hasMedia msg); [|reflexivity].
  destruct (downloadMedia_answer w) as [[m|]|e]; reflexivity.
Qed.

Lemma post_message_eq (p : obj) :
  post_message cfg w p
  = ([delivery cfg p],
     match fetch_answer w with
     | Resolved _ => inr tt
     | Rejected e => inl e
     end).
Proof.
  unfold post_message, delivery, fetch.
  destruct (fetch_answer w); reflexivity.
Qed.

Lemma on_message_eq (msg : Message.t) :
  on_message cfg w msg
  = match getChat_answer w with
    | Rejected e => ([GetChat; ConsoleError "Error" (Some e)], inr tt)
    | Resolved chat =>
        if whitelist_miss (GROUP_WHITELIST cfg) (Chat.isGroup chat)
             (groupName_of chat)
        then ([GetChat], inr tt)
        else
          match build_payload w msg chat with
          | (t, inl e) =>
              ((GetChat :: t) ++ [ConsoleError "Error" (Some e)], inr tt)
          | (t, inr p) =>
              match fetch_answer w with
              | Resolved _ => ((GetChat :: t) ++ [delivery cfg p], inr tt)
              | Rejected e =>
                  ((GetChat :: t)
                     ++ [delivery cfg p; ConsoleError "Error" (Some e)],
                   inr tt)
              end
          end
    end%list.
Proof.
  unfold on_message, getChat.
  destruct (getChat_answer w) as [chat|e]; [|reflexivity].
  cbn [await bind].
  destruct (whitelist_miss _ _ _); [reflexivity|].
  destruct (build_payload w msg chat) as [t [e|p]] eqn:B.
  - cbn. rewrite ?app_nil_r. reflexivity.
  - cbn [bind]. rewrite post_message_eq.
    destruct (fetch_answer w); cbn; rewrite ?app_nil_r, <- ?app_assoc;
      reflexivity.
Qed.

Lemma post_qr_eq (qr : jsval) :
  post_qr cfg w qr
  = ([Fetch (QR_ENDPOINT cfg)
        (sign_headers (HMAC_SECRET cfg) (JSON.stringify [("qr", qr)]))
        (JSON.stringify [("qr", qr)])],
     match fetch_answer w with
     | Resolved _ => inr tt
     | Rejected e => inl e
     end).
Proof.
  unfold post_qr, fetch. destruct (fetch_answer w); reflexivity.
Qed.

End Blocks.

(* ===================================================================== *)
(** ** The group filter *)
(* ===================================================================== *)

Lemma shouldForward_not_group (whitelist : list string) (chat : Chat.t) :
  Chat.isGroup chat = false -> shouldForward whitelist chat = true.
Proof.
  unfold shouldForward, whitelist_miss. intros ->. reflexivity.
Qed.

Lemma shouldForward_no_whitelist (chat : Chat.t) : shouldForward [] chat = true.
Proof.
  unfold shouldForward, whitelist_miss.
  destruct (Chat.isGroup chat); reflexivity.
Qed.

Lemma shouldForward_group (whitelist : list string) (chat : Chat.t) :
  Chat.isGroup chat = true ->
  whitelist <> [] ->
  shouldForward whitelist chat = true <-> In (Chat.name chat) whitelist.
Proof.
  unfold shouldForward, whitelist_miss, groupName_of.
  intros -> Hne. apply truthy_length in Hne. rewrite Hne.
  cbn [andb]. rewrite negb_involutive. apply includes_In.
Qed.

(** C2: a message of a chat that is not a group is forwarded whatever the
    whitelist holds; every message is forwarded when the whitelist is
    empty; a group message with a non-empty whitelist is forwarded exactly
    when the group's name is one of the whitelist's strings (equality of
    strings: case and spacing count). *)
Theorem group_filter_forwards (whitelist : list string) (chat : Chat.t) :
  (Chat.isGroup chat = false -> shouldForward whitelist chat = true)
  /\ (whitelist = [] -> shouldForward whitelist chat = true)
  /\ (Chat.isGroup chat = true -> whitelist <> [] ->
      (shouldForward whitelist chat = true <-> In (Chat.name chat) whitelist)).
Proof.
  split; [|split].
  - apply shouldForward_not_group.
  - intros ->. apply shouldForward_no_whitelist.
  - apply shouldForward_group.
Qed.

Lemma group_filter_forwards_witness :
  shouldForward ["Trabajo"] Sample.trabajo = true.
Proof.
  apply (proj2 (proj2 (group_filter_forwards ["Trabajo"] Sample.trabajo))).
  - reflexivity.
  - discriminate.
  - simpl. left. reflexivity.
Defined.

(** The comparison is exact: another case or a stray space is a miss. *)
Example filter_is_case_sensitive :
  shouldForward ["familia"; " Familia"; "Familia "] Sample.familia = false.
Proof. reflexivity. Qed.

(** The handler goes on to the contact lookup exactly when the filter
    lets the message through. *)
Lemma shouldForward_gate (cfg : config) (w : world) (msg : Message.t)
    (chat : Chat.t) :
  getChat_answer w = Resolved chat ->
  if shouldForward (GROUP_WHITELIST cfg) chat
  then exists rest, trace (on_message cfg w msg) = GetChat :: lookup_call msg :: rest
  else on_message cfg w msg = ([GetChat], inr tt).
Proof.
  intros Hchat. rewrite on_message_eq, Hchat. unfold shouldForward.
  destruct (whitelist_miss _ _ _); cbn [negb]; [reflexivity|].
  rewrite build_payload_eq. cbv zeta.
  destruct (Message.hasMedia msg);
    [destruct (downloadMedia_answer w) as [[m|]|e]|];
    destruct (fetch_answer w); cbn; eexists; reflexivity.
Qed.

(** C10: a group message whose group is not on a non-empty whitelist ends
    the handler right after the chat lookup: the handler's calls are
    [getChat] alone (no contact lookup, no download, no POST, no log), and
    it returns normally. *)
Theorem whitelist_miss_stops_handler (cfg : config) (w : world)
    (msg : Message.t) (chat : Chat.t) :
  getChat_answer w = Resolved chat ->
  Chat.isGroup chat = true ->
  GROUP_WHITELIST cfg <> [] ->
  ~ In (Chat.name chat) (GROUP_WHITELIST cfg) ->
  on_message cfg w msg = ([GetChat], inr tt).
Proof.
  intros Hchat Hgroup Hne Hout.
  pose proof (shouldForward_gate cfg w msg chat Hchat) as Hgate.
  destruct (shouldForward (GROUP_WHITELIST cfg) chat) eqn:Hfwd; [|exact Hgate].
  apply (shouldForward_group _ _ Hgroup Hne) in Hfwd. contradiction.
Qed.

Lemma whitelist_miss_stops_handler_witness :
  on_message Sample.cfg (Sample.world_with Sample.familia) Sample.in_group
  = ([GetChat], inr tt).
Proof.
  apply (whitelist_miss_stops_handler _ _ _ Sample.familia).
  - reflexivity.
  - reflexivity.
  - discriminate.
  - simpl. intros [H | []]. discriminate.
Defined.

(* ===================================================================== *)
(** ** The signer *)
(* ===================================================================== *)

Lemma sign_headers_unsigned (body : string) :
  sign_headers "" body = {[ "Content-Type" := "application/json" ]}.
Proof. reflexivity. Qed.

Lemma sign_headers_signed (secret body : string) :
  secret <> "" ->
  sign_headers secret body
  = <[ "x-signature" := createHmac_sha256_hex secret body ]>
      ({[ "Content-Type" := "application/json" ]} : gmap string string).
Proof.
  intros Hne. unfold sign_headers.
  apply truthy_JStr in Hne. rewrite Hne. reflexivity.
Qed.

(** C3: with the secret not set or empty, the headers are exactly
    [Content-Type: application/json] and there is no [x-signature]; with a
    non-empty secret they are that header plus [x-signature], the
    hex-encoded HMAC-SHA256 of the body under the secret. *)
Theorem signer_headers (body : string) (v : option string) :
  ((v = None \/ v = Some "") ->
   sign_headers (HMAC_SECRET_of_env v) body
   = {[ "Content-Type" := "application/json" ]}
   /\ sign_headers (HMAC_SECRET_of_env v) body !! "x-signature" = None)
  /\ (forall secret, v = Some secret -> secret <> "" ->
      sign_headers (HMAC_SECRET_of_env v) body
      = <[ "x-signature" := createHmac_sha256_hex secret body ]>
          ({[ "Content-Type" := "application/json" ]} : gmap string string)
      /\ sign_headers (HMAC_SECRET_of_env v) body !! "x-signature"
         = Some (createHmac_sha256_hex secret body)
      /\ sign_headers (HMAC_SECRET_of_env v) body !! "Content-Type"
         = Some "application/json").
Proof.
  split.
  - intros [-> | ->]; cbn [HMAC_SECRET_of_env js_opt js_or truthy String.eqb negb];
      rewrite sign_headers_unsigned; (split; [reflexivity|]);
      apply lookup_singleton_ne; discriminate.
  - intros secret -> Hne.
    assert (HMAC_SECRET_of_env (Some secret) = secret) as ->.
    { unfold HMAC_SECRET_of_env, js_or. cbn [js_opt].
      apply truthy_JStr in Hne. now rewrite Hne. }
    rewrite (sign_headers_signed _ _ Hne). split; [reflexivity|]. split.
    + apply lookup_insert_eq.
    + rewrite lookup_insert_ne by discriminate. apply lookup_singleton_eq.
Qed.

Lemma signer_headers_witness :
  sign_headers (HMAC_SECRET_of_env None) "{}" !! "x-signature" = None
  /\ sign_headers (HMAC_SECRET_of_env (Some "s3cr3t")) "{}" !! "x-signature"
     = Some (createHmac_sha256_hex "s3cr3t" "{}").
Proof.
  split.
  - apply (proj1 (signer_headers "{}" None)). left. reflexivity.
  - apply (proj2 (signer_headers "{}" (Some "s3cr3t")) "s3cr3t").
    + reflexivity.
    + discriminate.
Defined.

(** The signature of Scenario 5's body, as the sink recomputes it. *)
Example signature_of_qr_ABC :
  sign_headers "s3cr3t" (JSON.stringify [("qr", JStr "ABC")]) !! "x-signature"
  = Some "3d65ebb9f7f09806fa286c1730c08d652d2c8b61f4b6fcf0c237355334646c2c".
Proof. vm_compute. reflexivity. Qed.

(* ===================================================================== *)
(** ** Failures inside the message handler *)
(* ===================================================================== *)

(** C5: when a message has media and the download fails (the promise is
    rejected, or it resolves to nothing), the handler issues no POST at
    all and returns normally; and whenever the download was attempted, the
    failed download is the handler's last call but one, followed by the
    logged error. *)
Theorem failed_download_drops_event (cfg : config) (w : world)
    (msg : Message.t) :
  Message.hasMedia msg = true ->
  download_failed w ->
  returns (on_message cfg w msg) = true
  /\ List.existsb is_fetch (trace (on_message cfg w msg)) = false
  /\ (In DownloadMedia (trace (on_message cfg w msg)) ->
      exists before e,
        trace (on_message cfg w msg)
        = (before ++ [DownloadMedia; ConsoleError "Error" (Some e)])%list
        /\ (downloadMedia_answer w = Rejected e
            \/ (downloadMedia_answer w = Resolved None /\ e = no_media))).
Proof.
  intros Hmedia Hfail. unfold download_failed in Hfail.
  rewrite on_message_eq.
  destruct (getChat_answer w) as [chat|e].
  - destruct (whitelist_miss _ _ _).
    + cbn. repeat split. intros [H | []]. discriminate.
    + rewrite build_payload_eq, Hmedia. cbv zeta.
      destruct (downloadMedia_answer w) as [[m|]|e]; [contradiction| |].
      * cbn. repeat split.
        -- unfold lookup_call. destruct (truthy _); reflexivity.
        -- intros _. exists [GetChat; lookup_call msg], no_media.
           split; [reflexivity | right; split; reflexivity].
      * cbn. repeat split.
        -- unfold lookup_call. destruct (truthy _); reflexivity.
        -- intros _. exists [GetChat; lookup_call msg], e.
           split; [reflexivity | left; reflexivity].
  - cbn. repeat split. intros [H | [H | []]]; discriminate.
Qed.

Lemma failed_download_drops_event_witness :
  List.existsb is_fetch
    (trace (on_message Sample.cfg_open Sample.no_download Sample.photo))
  = false.
Proof.
  apply (failed_download_drops_event Sample.cfg_open Sample.no_download
           Sample.photo).
  - reflexivity.
  - exact I.
Defined.

(* ===================================================================== *)
(** ** The envelope *)
(* ===================================================================== *)

(** An envelope is the object literal of lines 70-81, with the four media
    assignments on top when the message has media. *)
Lemma produced_payload (w : world) (msg : Message.t) (chat : Chat.t)
    (p : obj) :
  produces (build_payload w msg chat) p ->
  (Message.hasMedia msg = false
   /\ p = payload_of msg chat (senderName_in w))
  \/ (Message.hasMedia msg = true
      /\ exists m, downloadMedia_answer w = Resolved (Some m)
                   /\ p = attach_media (payload_of msg chat (senderName_in w)) m).
Proof.
  unfold produces. rewrite build_payload_eq. cbv zeta.
  destruct (Message.hasMedia msg).
  - destruct (downloadMedia_answer w) as [[m|]|e]; cbn [snd]; intros H;
      try discriminate.
    injection H as <-. right. split; [reflexivity|]. now exists m.
  - cbn [snd]. intros H. injection H as <-. now left.
Qed.

(** Every POST of the message handler carries an envelope, and every
    envelope is posted. *)
Lemma envelope_posted (cfg : config) (w : world) (msg : Message.t) (p : obj) :
  envelope_of cfg w msg p -> In (delivery cfg p) (trace (on_message cfg w msg)).
Proof.
  intros (chat & Hchat & Hpass & Hprod).
  rewrite on_message_eq, Hchat, Hpass.
  destruct (build_payload w msg chat) as [t [e|q]]; unfold produces in Hprod;
    cbn [snd] in Hprod; [discriminate|]. injection Hprod as ->.
  destruct (fetch_answer w); cbn [trace fst]; apply in_or_app; right;
    left; reflexivity.
Qed.

Lemma build_payload_no_fetch (w : world) (msg : Message.t) (chat : Chat.t)
    (c : io) :
  In c (trace (build_payload w msg chat)) -> is_fetch c = false.
Proof.
  rewrite build_payload_eq. cbv zeta. unfold lookup_call.
  destruct (Message.hasMedia msg);
    [destruct (downloadMedia_answer w) as [[m|]|e]|];
    destruct (truthy _); cbn; intuition (subst; reflexivity).
Qed.

Lemma posted_envelope (cfg : config) (w : world) (msg : Message.t) (c : io) :
  is_fetch c = true ->
  In c (trace (on_message cfg w msg)) ->
  exists p, envelope_of cfg w msg p /\ c = delivery cfg p.
Proof.
  intros Hc. rewrite on_message_eq.
  destruct (getChat_answer w) as [chat|e] eqn:Hchat.
  - destruct (whitelist_miss _ _ _) eqn:Hpass.
    + cbn. intros [<- | []]. discriminate.
    + pose proof (build_payload_no_fetch w msg chat) as Hpre.
      destruct (build_payload w msg chat) as [t [e|p]] eqn:B;
        cbn [trace fst] in Hpre.
      * cbn [trace fst]. intros Hin. exfalso.
        apply in_app_or in Hin. destruct Hin as [[<- | Hin] | [<- | []]];
          try discriminate.
        apply Hpre in Hin. congruence.
      * assert (envelope_of cfg w msg p) as Henv.
        { exists chat. repeat split; try assumption.
          unfold produces. now rewrite B. }
        destruct (fetch_answer w); cbn [trace fst]; intros Hin;
          apply in_app_or in Hin;
          destruct Hin as [[<- | Hin] | Hin]; try discriminate;
          try (apply Hpre in Hin; congruence).
        -- destruct Hin as [<- | []]. now exists p.
        -- destruct Hin as [<- | [<- | []]]; [now exists p | discriminate].
  - cbn. intros [<- | [<- | []]]; discriminate.
Qed.

Lemma present_js_or_null (v : jsval) :
  match v with JBool _ | JNum _ => False | _ => True end ->
  present (js_or v JNull) = truthy v.
Proof.
  destruct v as [| |b|n|s]; try contradiction; intros _; try reflexivity.
  unfold js_or. destruct (truthy (JStr s)); reflexivity.
Qed.

Lemma text_group_body (msg : Message.t) :
  present (js_or (js_opt (Message.body msg)) JNull)
  = truthy (js_opt (Message.body msg)).
Proof.
  apply present_js_or_null. now destruct (Message.body msg).
Qed.

Lemma present_filename (m : Media.t) :
  present (js_or (js_opt (Media.filename m)) (JStr "file.bin")) = true.
Proof.
  unfold js_or. destruct (Media.filename m) as [f|]; [|reflexivity].
  destruct (truthy (js_opt (Some f))); reflexivity.
Qed.

(** C1, as the code has it: [type] is [media] exactly when the raw message
    has media; the three media fields are all present when [type] is
    [media] and none of them exists when [type] is [text]; [text] is
    present exactly when the raw body is a non-empty string, whatever the
    type. *)
Theorem envelope_field_groups (w : world) (msg : Message.t) (chat : Chat.t)
    (p : obj) :
  produces (build_payload w msg chat) p ->
  obj_get "type" p = JStr (if Message.hasMedia msg then "media" else "text")
  /\ media_group p = Message.hasMedia msg
  /\ (Message.hasMedia msg = false -> no_media_field p = true)
  /\ text_group p = truthy (js_opt (Message.body msg)).
Proof.
  intros Hp. apply produced_payload in Hp.
  destruct Hp as [[Hm ->] | [Hm (m & _ & ->)]]; rewrite Hm.
  - repeat split. apply text_group_body.
  - split; [reflexivity|]. split; [|split; [discriminate|]].
    + unfold media_group.
      change (obj_get "filename" _)
        with (js_or (js_opt (Media.filename m)) (JStr "file.bin")).
      rewrite present_filename. reflexivity.
    + apply text_group_body.
Qed.

Lemma envelope_field_groups_witness :
  media_group Sample.photo_envelope = true
  /\ text_group Sample.photo_envelope = true.
Proof.
  destruct (envelope_field_groups Sample.online Sample.photo
              Sample.private_chat Sample.photo_envelope) as (_ & Hm & _ & Ht).
  - reflexivity.
  - split; [exact Hm | exact Ht].
Defined.

(** C1 as stated fails both ways: a photo with a caption has both groups,
    and a message with an empty body and no media has neither. *)
Lemma envelope_groups_not_exclusive :
  (produces (build_payload Sample.online Sample.photo Sample.private_chat)
     Sample.photo_envelope
   /\ exactly_one_group Sample.photo_envelope = false
   /\ text_group Sample.photo_envelope = true
   /\ media_group Sample.photo_envelope = true)
  /\ (produces (build_payload Sample.online Sample.blank Sample.private_chat)
        (payload_of Sample.blank Sample.private_chat (JStr "Ana"))
      /\ exactly_one_group
           (payload_of Sample.blank Sample.private_chat (JStr "Ana")) = false).
Proof. repeat split. Qed.

Lemma produced_senderNumber (w : world) (msg : Message.t) (chat : Chat.t)
    (p : obj) :
  produces (build_payload w msg chat) p ->
  obj_get "senderNumber" p = senderNumber_of msg.
Proof.
  intros Hp. apply produced_payload in Hp.
  destruct Hp as [[_ ->] | [_ (m & _ & ->)]]; reflexivity.
Qed.

(** C4, as the code has it: [senderNumber] is the part of ([author] if the
    message has a non-empty one, else [from]) before the first [@], and it
    is absent exactly when that part is empty, that is when the source
    field is empty or begins with [@]. *)
Theorem senderNumber_prefix (w : world) (msg : Message.t) (chat : Chat.t)
    (p : obj) :
  produces (build_payload w msg chat) p ->
  let number := before_first at_sign (author_or_from msg) in
  (number <> "" -> obj_get "senderNumber" p = JStr number)
  /\ (number = "" -> obj_get "senderNumber" p = JNull)
  /\ (absent (obj_get "senderNumber" p) = true
      <-> author_or_from msg = ""
          \/ exists rest, author_or_from msg = String at_sign rest).
Proof.
  intros Hp number. rewrite (produced_senderNumber _ _ _ _ Hp).
  rewrite senderNumber_before_first. fold number. unfold js_or.
  rewrite <- (before_first_empty at_sign (author_or_from msg)). fold number.
  destruct (truthy (JStr number)) eqn:T.
  - apply truthy_JStr in T. repeat split; try congruence. discriminate.
  - assert (number = "") as Hn.
    { simpl in T. apply negb_false_iff in T. now apply String.eqb_eq. }
    repeat split; congruence.
Qed.

Lemma senderNumber_prefix_witness :
  obj_get "senderNumber" Sample.hola_envelope = JStr "5491100000000".
Proof.
  apply (senderNumber_prefix Sample.online Sample.hola Sample.private_chat
           Sample.hola_envelope).
  - reflexivity.
  - discriminate.
Defined.

(** C4 as stated fails where the source field is not empty but starts with
    [@]: the field is absent although its source is not empty. *)
Lemma senderNumber_absent_with_source :
  produces (build_payload Sample.online Sample.no_number Sample.private_chat)
    (payload_of Sample.no_number Sample.private_chat (JStr "Ana"))
  /\ author_or_from Sample.no_number <> ""
  /\ absent (obj_get "senderNumber"
               (payload_of Sample.no_number Sample.private_chat (JStr "Ana")))
     = true
  /\ obj_get "senderNumber"
       (payload_of Sample.no_number Sample.private_chat (JStr "Ana"))
     <> senderNumber_by_source Sample.no_number.
Proof. repeat split; discriminate. Qed.

(** C8, as the code has it: in a text envelope a non-empty body is carried
    unchanged in [text], and an absent, null or empty body gives [null]. *)
Theorem text_carries_body (w : world) (msg : Message.t) (chat : Chat.t)
    (p : obj) :
  produces (build_payload w msg chat) p ->
  Message.hasMedia msg = false ->
  obj_get "type" p = JStr "text"
  /\ (forall s, Message.body msg = Some s -> s <> "" ->
      obj_get "text" p = JStr s)
  /\ (Message.body msg = None \/ Message.body msg = Some "" ->
      obj_get "text" p = JNull).
Proof.
  intros Hp Hm. apply produced_payload in Hp.
  destruct Hp as [[_ ->] | [Hm' _]]; [|congruence].
  split; [reflexivity|]. split.
  - intros s Hb Hne. cbn. rewrite Hb. unfold js_or. cbn [js_opt].
    apply truthy_JStr in Hne. now rewrite Hne.
  - intros [Hb | Hb]; cbn; rewrite Hb; reflexivity.
Qed.

Lemma text_carries_body_witness :
  obj_get "text" Sample.hola_envelope = JStr "hola".
Proof.
  apply (proj1 (proj2 (text_carries_body Sample.online Sample.hola
                         Sample.private_chat Sample.hola_envelope
                         eq_refl eq_refl)) "hola").
  - reflexivity.
  - discriminate.
Defined.

(** C8 as stated fails on the empty string: a body that is a string, not
    null, comes out as [null]. *)
Lemma empty_body_not_verbatim :
  produces (build_payload Sample.online Sample.blank Sample.private_chat)
    (payload_of Sample.blank Sample.private_chat (JStr "Ana"))
  /\ Message.body Sample.blank = Some ""
  /\ obj_get "text" (payload_of Sample.blank Sample.private_chat (JStr "Ana"))
     = JNull
  /\ obj_get "text" (payload_of Sample.blank Sample.private_chat (JStr "Ana"))
     <> text_verbatim Sample.blank.
Proof. repeat split; discriminate. Qed.

Lemma produced_from_and_group (w : world) (msg : Message.t) (chat : Chat.t)
    (p : obj) :
  produces (build_payload w msg chat) p ->
  obj_get "from_" p = JStr (Message.from msg)
  /\ obj_get "isGroup" p = JBool (Chat.isGroup chat)
  /\ obj_get "groupId" p = groupId_of msg (Chat.isGroup chat)
  /\ obj_get "senderName" p = senderName_in w
  /\ has_key "from" p = false.
Proof.
  intros Hp. apply produced_payload in Hp.
  destruct Hp as [[_ ->] | [_ (m & _ & ->)]]; repeat split.
Qed.

(** C7, as the code has it: every envelope posted to the ingestion
    endpoint has the string field [from_] (that is its name in the
    object), holding the chat identifier; [groupId] is present and equal
    to it exactly when [isGroup] is true, and [null] otherwise. *)
Theorem delivered_from_and_groupId (cfg : config) (w : world)
    (msg : Message.t) (c : io) :
  is_fetch c = true ->
  In c (trace (on_message cfg w msg)) ->
  exists p,
    c = delivery cfg p
    /\ obj_get "from_" p = JStr (Message.from msg)
    /\ (exists b, obj_get "isGroup" p = JBool b)
    /\ (obj_get "isGroup" p = JBool true ->
        obj_get "groupId" p = obj_get "from_" p)
    /\ (obj_get "isGroup" p = JBool false -> obj_get "groupId" p = JNull)
    /\ (present (obj_get "groupId" p) = true
        <-> obj_get "isGroup" p = JBool true).
Proof.
  intros Hc Hin.
  destruct (posted_envelope cfg w msg c Hc Hin) as (p & (chat & _ & _ & Hp) & ->).
  exists p. split; [reflexivity|].
  destruct (produced_from_and_group w msg chat p Hp)
    as (Hfrom & Hgroup & Hid & _ & _).
  rewrite Hfrom, Hgroup, Hid. unfold groupId_of.
  split; [reflexivity|]. split; [now eexists|].
  destruct (Chat.isGroup chat); cbn; repeat split; congruence.
Qed.

Lemma hola_envelope_of : envelope_of Sample.cfg_open Sample.online Sample.hola
                           Sample.hola_envelope.
Proof. exists Sample.private_chat. repeat split. Qed.

Lemma delivered_from_and_groupId_witness :
  exists p,
    delivery Sample.cfg_open Sample.hola_envelope = delivery Sample.cfg_open p
    /\ obj_get "from_" p = JStr "5491100000000@c.us".
Proof.
  destruct (delivered_from_and_groupId Sample.cfg_open Sample.online
              Sample.hola (delivery Sample.cfg_open Sample.hola_envelope))
    as (p & Hc & Hfrom & _).
  - reflexivity.
  - apply envelope_posted. exact hola_envelope_of.
  - exists p. split; [exact Hc | exact Hfrom].
Defined.

(** C7 as stated fails on the field's name: the posted envelope has no
    property [from]; the chat identifier travels as [from_]. *)
Lemma delivered_envelope_has_no_from :
  In (delivery Sample.cfg_open Sample.hola_envelope)
     (trace (on_message Sample.cfg_open Sample.online Sample.hola))
  /\ has_key "from" Sample.hola_envelope = false
  /\ obj_get "from" Sample.hola_envelope = JUndefined
  /\ ~ (exists s, obj_get "from" Sample.hola_envelope = JStr s).
Proof.
  split; [apply envelope_posted; exact hola_envelope_of|].
  repeat split. intros [s H]. discriminate.
Qed.

(** On the wire the first member of Scenario 1's body is [from_]. *)
Example hola_body_starts_with_from_ :
  String.prefix
    (String.append "{"
       (String.append (JSON.quote "from_")
          (String.append ":" (JSON.quote "5491100000000@c.us"))))
    (JSON.stringify Sample.hola_envelope)
  = true.
Proof. vm_compute. reflexivity. Qed.

(** The answer to the contact lookup changes neither which calls the
    handler makes after it nor how the handler ends. *)
Lemma contact_answer_irrelevant (cfg : config) (w : world) (msg : Message.t)
    (answer : settled (option Contact.t)) :
  List.map is_fetch (trace (on_message cfg (with_contact_answer w answer) msg))
  = List.map is_fetch (trace (on_message cfg w msg))
  /\ returns (on_message cfg (with_contact_answer w answer) msg)
     = returns (on_message cfg w msg).
Proof.
  rewrite !on_message_eq. cbn [with_contact_answer getChat_answer fetch_answer].
  destruct (getChat_answer w) as [chat|e]; [|split; reflexivity].
  destruct (whitelist_miss _ _ _); [split; reflexivity|].
  rewrite !build_payload_eq. cbv zeta.
  cbn [with_contact_answer downloadMedia_answer].
  destruct (Message.hasMedia msg);
    [destruct (downloadMedia_answer w) as [[m|]|e]|];
    destruct (fetch_answer w); split; reflexivity.
Qed.

(** C9, as the code has it: when the contact lookup of a message that
    passed the filter fails (the promise is rejected, or resolves to no
    contact), the handler still returns normally, the envelope's
    [senderName] is [null], and the envelope is not dropped for it: the
    handler posts exactly where it would post had the lookup answered
    anything else, and unless the media download fails its calls are the
    chat lookup, the contact lookup, the download if the message has
    media, and the POST (followed by a log only if the POST itself is
    rejected). *)
Theorem lookup_failure_degrades (cfg : config) (w : world) (msg : Message.t)
    (chat : Chat.t) :
  getChat_answer w = Resolved chat ->
  shouldForward (GROUP_WHITELIST cfg) chat = true ->
  lookup_failed w ->
  returns (on_message cfg w msg) = true
  /\ (forall p, envelope_of cfg w msg p -> obj_get "senderName" p = JNull)
  /\ (forall answer,
        List.map is_fetch (trace (on_message cfg w msg))
        = List.map is_fetch
            (trace (on_message cfg (with_contact_answer w answer) msg)))
  /\ (Message.hasMedia msg = false \/ ~ download_failed w ->
      exists p,
        envelope_of cfg w msg p
        /\ obj_get "senderName" p = JNull
        /\ trace (on_message cfg w msg)
           = ([GetChat; lookup_call msg]
                ++ (if Message.hasMedia msg then [DownloadMedia] else [])
                ++ [delivery cfg p]
                ++ match fetch_answer w with
                   | Resolved _ => []
                   | Rejected e => [ConsoleError "Error" (Some e)]
                   end)%list).
Proof.
  intros Hchat Hfwd Hfail.
  assert (senderName_in w = JNull) as Hname.
  { unfold senderName_in. unfold lookup_failed in Hfail.
    destruct (contact_answer w) as [[c|]|e]; [contradiction | | ]; reflexivity. }
  assert (whitelist_miss (GROUP_WHITELIST cfg) (Chat.isGroup chat)
            (groupName_of chat) = false) as Hpass.
  { unfold shouldForward in Hfwd. now apply negb_true_iff in Hfwd. }
  split; [|split; [|split]].
  - rewrite on_message_eq, Hchat, Hpass.
    destruct (build_payload w msg chat) as [t [e|p]];
      [|destruct (fetch_answer w)]; reflexivity.
  - intros p (chat' & Hchat' & _ & Hp).
    destruct (produced_from_and_group w msg chat' p Hp) as (_ & _ & _ & Hn & _).
    congruence.
  - intros answer. symmetry. apply contact_answer_irrelevant.
  - intros Hmedia. rewrite on_message_eq, Hchat, Hpass.
    pose proof (produced_from_and_group w msg chat) as Hfields.
    assert (forall p, produces (build_payload w msg chat) p ->
                      envelope_of cfg w msg p) as Henv.
    { intros p Hp. now exists chat. }
    revert Hfields Henv. unfold produces. rewrite build_payload_eq. cbv zeta.
    unfold download_failed in Hmedia.
    destruct (Message.hasMedia msg).
    + destruct (downloadMedia_answer w) as [[m|]|e];
        [|exfalso; destruct Hmedia as [H | H]; [discriminate | now apply H]..].
      intros Hfields Henv. eexists. split; [apply Henv; reflexivity|].
      split; [rewrite <- Hname; now apply Hfields|].
      destruct (fetch_answer w); reflexivity.
    + intros Hfields Henv. eexists. split; [apply Henv; reflexivity|].
      split; [rewrite <- Hname; now apply Hfields|].
      destruct (fetch_answer w); reflexivity.
Qed.

Lemma lookup_failure_degrades_witness :
  returns (on_message Sample.cfg_open Sample.no_contact Sample.hola) = true.
Proof.
  apply (lookup_failure_degrades Sample.cfg_open Sample.no_contact Sample.hola
           Sample.private_chat).
  - reflexivity.
  - reflexivity.
  - exact I.
Defined.

(** C9 as stated fails for a media message whose download fails too: the
    contact lookup is made and rejected, then the download is rejected,
    and the event is dropped: no envelope is built and nothing is
    posted. *)
Lemma lookup_failure_with_failed_download :
  getChat_answer SampleEnv.lookup_and_download_down
  = Resolved Sample.private_chat
  /\ shouldForward (GROUP_WHITELIST Sample.cfg_open) Sample.private_chat = true
  /\ lookup_failed SampleEnv.lookup_and_download_down
  /\ on_message Sample.cfg_open SampleEnv.lookup_and_download_down Sample.photo
     = ([GetChat; GetContact; DownloadMedia;
         ConsoleError "Error" (Some (Rejection "Protocol error"))], inr tt)
  /\ List.existsb is_fetch
       (trace (on_message Sample.cfg_open SampleEnv.lookup_and_download_down
                 Sample.photo)) = false
  /\ ~ (exists p, envelope_of Sample.cfg_open SampleEnv.lookup_and_download_down
                    Sample.photo p).
Proof.
  repeat split.
  intros (p & chat & Hchat & _ & Hp). unfold produces in Hp.
  rewrite build_payload_eq in Hp. discriminate Hp.
Qed.

(** The same message, lookup failed: posted with [senderName] null. *)
Example hola_without_contact :
  trace (on_message Sample.cfg_open Sample.no_contact Sample.hola)
  = [GetChat; GetContact;
     delivery Sample.cfg_open (payload_of Sample.hola Sample.private_chat JNull)].
Proof. reflexivity. Qed.

(* ===================================================================== *)
(** ** Delivery failures and the life of the session *)
(* ===================================================================== *)

Lemma on_ready_eq (cfg : config) (w : world) :
  on_ready cfg w = ([ConsoleLog "WA listo ✅"; qr_request cfg JNull], inr tt).
Proof.
  unfold on_ready. rewrite post_qr_eq.
  destruct (fetch_answer w); reflexivity.
Qed.

Lemma on_qr_eq (cfg : config) (w : world) (qr : string) :
  on_qr cfg w qr
  = match qrcode_generate_answer w with
    | Rejected e => ([ConsoleLog "Escaneá este QR:"; QrcodeGenerate qr], inl e)
    | Resolved _ =>
        match fetch_answer w with
        | Resolved _ =>
            ([ConsoleLog "Escaneá este QR:"; QrcodeGenerate qr;
              qr_request cfg (JStr qr)], inr tt)
        | Rejected e =>
            ([ConsoleLog "Escaneá este QR:"; QrcodeGenerate qr;
              qr_request cfg (JStr qr);
              ConsoleError "No se pudo publicar el QR" (Some e)], inr tt)
        end
    end.
Proof.
  unfold on_qr, qrcode_generate. rewrite post_qr_eq.
  destruct (qrcode_generate_answer w); [|reflexivity].
  destruct (fetch_answer w); reflexivity.
Qed.

Lemma on_message_returns (cfg : config) (w : world) (msg : Message.t) :
  returns (on_message cfg w msg) = true.
Proof.
  rewrite on_message_eq.
  destruct (getChat_answer w) as [chat|e]; [|reflexivity].
  destruct (whitelist_miss _ _ _); [reflexivity|].
  destruct (build_payload w msg chat) as [t [e|p]];
    [|destruct (fetch_answer w)]; reflexivity.
Qed.

(** A handler that made a POST ran to its end. *)
Lemma attempt_returns (cfg : config) (w : world) (ev : event) :
  List.existsb is_fetch (trace (handle cfg w ev)) = true ->
  returns (handle cfg w ev) = true.
Proof.
  destruct ev as [qr| |msg]; cbn [handle].
  - rewrite on_qr_eq. destruct (qrcode_generate_answer w);
      [destruct (fetch_answer w); reflexivity | discriminate].
  - rewrite on_ready_eq. reflexivity.
  - intros _. apply on_message_returns.
Qed.

Lemma run_after_return (cfg : config) (w : world) (ev : event)
    (rest : list (world * event)) :
  returns (handle cfg w ev) = true ->
  run cfg ((w, ev) :: rest)
  = ((trace (handle cfg w ev) ++ trace (run cfg rest))%list,
     snd (run cfg rest)).
Proof.
  cbn [run]. unfold returns, trace.
  destruct (handle cfg w ev) as [t [e|[]]]; cbn [snd fst bind]; [discriminate|].
  intros _. destruct (run cfg rest). reflexivity.
Qed.

(** The message handler logs a rejected POST right after it. *)
Lemma on_message_logs_rejection (cfg : config) (w : world) (msg : Message.t)
    (e : exn) :
  fetch_answer w = Rejected e ->
  List.existsb is_fetch (trace (on_message cfg w msg)) = true ->
  exists before c,
    trace (on_message cfg w msg)
    = (before ++ [c; ConsoleError "Error" (Some e)])%list
    /\ is_fetch c = true.
Proof.
  intros Hf. rewrite on_message_eq, Hf.
  destruct (getChat_answer w) as [chat|e']; [|discriminate].
  destruct (whitelist_miss _ _ _); [discriminate|].
  pose proof (build_payload_no_fetch w msg chat) as Hpre.
  destruct (build_payload w msg chat) as [t [e'|p]]; cbn [trace fst] in *.
  - intros Hex. exfalso. apply existsb_exists in Hex.
    destruct Hex as (x & Hin & Hx). apply in_app_or in Hin.
    destruct Hin as [[<- | Hin] | [<- | []]]; try discriminate.
    apply Hpre in Hin. congruence.
  - intros _. exists (GetChat :: t), (delivery cfg p). split; reflexivity.
Qed.

Lemma on_message_quiet (cfg : config) (w : world) (msg : Message.t)
    (r : response) :
  fetch_answer w = Resolved r ->
  List.existsb is_fetch (trace (on_message cfg w msg)) = true ->
  List.existsb is_console_error (trace (on_message cfg w msg)) = false.
Proof.
  intros Hf. rewrite on_message_eq, Hf.
  destruct (getChat_answer w) as [chat|e']; [|discriminate].
  destruct (whitelist_miss _ _ _); [discriminate|].
  rewrite build_payload_eq. cbv zeta. unfold lookup_call.
  destruct (Message.hasMedia msg);
    [destruct (downloadMedia_answer w) as [[m|]|e]|];
    destruct (truthy _); cbn; congruence.
Qed.

(** C6, as the code has it: whatever the POST of a QR, ready or message
    event does, the handler returns normally and the events after it are
    handled as they would be on their own.  A rejected POST (network
    error, timeout) is logged right after the request by the QR and
    message handlers, and discarded without a log by the ready handler.
    A POST answered with any HTTP status, success or not, is not a
    failure for [fetch]: nothing is logged. *)
Theorem delivery_failure_swallowed (cfg : config) (w : world) (ev : event) :
  List.existsb is_fetch (trace (handle cfg w ev)) = true ->
  returns (handle cfg w ev) = true
  /\ (forall rest,
        run cfg ((w, ev) :: rest)
        = ((trace (handle cfg w ev) ++ trace (run cfg rest))%list,
           snd (run cfg rest)))
  /\ (forall e, fetch_answer w = Rejected e ->
        match ev with
        | Ready =>
            List.existsb is_console_error (trace (handle cfg w ev)) = false
        | _ =>
            exists before c text,
              trace (handle cfg w ev)
              = (before ++ [c; ConsoleError text (Some e)])%list
              /\ is_fetch c = true
        end)
  /\ (forall r, fetch_answer w = Resolved r ->
        List.existsb is_console_error (trace (handle cfg w ev)) = false).
Proof.
  intros Hattempt.
  pose proof (attempt_returns cfg w ev Hattempt) as Hret.
  split; [exact Hret|]. split; [intros rest; now apply run_after_return|].
  destruct ev as [qr| |msg]; cbn [handle] in *.
  - revert Hattempt. rewrite on_qr_eq.
    destruct (qrcode_generate_answer w); [|discriminate]. intros _. split.
    + intros e ->.
      exists [ConsoleLog "Escaneá este QR:"; QrcodeGenerate qr],
        (qr_request cfg (JStr qr)), "No se pudo publicar el QR".
      split; reflexivity.
    + intros r ->. reflexivity.
  - rewrite on_ready_eq. split; intros; reflexivity.
  - split.
    + intros e He.
      destruct (on_message_logs_rejection cfg w msg e He Hattempt)
        as (before & c & Ht & Hc).
      now exists before, c, "Error".
    + intros r Hr. now apply (on_message_quiet cfg w msg r).
Qed.

Lemma delivery_failure_swallowed_witness :
  returns (handle Sample.cfg Sample.sink_down (MessageEv Sample.hola)) = true
  /\ run Sample.cfg [(Sample.sink_down, MessageEv Sample.hola);
                     (Sample.online, Qr "ABC")]
     = ((trace (handle Sample.cfg Sample.sink_down (MessageEv Sample.hola))
           ++ trace (run Sample.cfg [(Sample.online, Qr "ABC")]))%list,
        snd (run Sample.cfg [(Sample.online, Qr "ABC")])).
Proof.
  destruct (delivery_failure_swallowed Sample.cfg Sample.sink_down
              (MessageEv Sample.hola)) as (Hret & Hrun & _).
  - reflexivity.
  - split; [exact Hret | apply Hrun].
Defined.

(** C6 as stated fails on "logged": with the sink down, the ready handler
    makes its POST, the POST is rejected, and nothing is logged. *)
Lemma ready_failure_not_logged :
  post_rejected Sample.sink_down
  /\ List.existsb is_fetch (trace (handle Sample.cfg Sample.sink_down Ready))
     = true
  /\ List.existsb is_console_error
       (trace (handle Sample.cfg Sample.sink_down Ready)) = false.
Proof. repeat split. Qed.

(** Scenario 6: the sink is down for a message, and the QR event that
    comes next is published all the same. *)
Example session_survives_sink_down :
  List.map is_fetch
    (trace (run Sample.cfg_open [(Sample.sink_down, MessageEv Sample.hola);
                                 (Sample.online, Qr "ABC")]))
  = [false; false; true; false; false; false; true]
  /\ returns (run Sample.cfg_open [(Sample.sink_down, MessageEv Sample.hola);
                                   (Sample.online, Qr "ABC")]) = true.
Proof. split; reflexivity. Qed.

(* ===================================================================== *)
(** ** The scenarios of the specification *)
(* ===================================================================== *)

(** Scenario 1: a private text message. *)
Example scenario_private_text :
  produces (build_payload Sample.online Sample.hola Sample.private_chat)
    Sample.hola_envelope
  /\ List.map (fun k => obj_get k Sample.hola_envelope)
       ["type"; "text"; "senderNumber"; "isGroup"; "groupName"; "senderName"]
     = [JStr "text"; JStr "hola"; JStr "5491100000000"; JBool false; JNull;
        JStr "Ana"].
Proof. split; reflexivity. Qed.

(** Scenarios 2 and 3: the group Familia, against a whitelist without it
    and against no whitelist. *)
Example scenario_group_filter :
  on_message Sample.cfg (Sample.world_with Sample.familia) Sample.in_group
  = ([GetChat], inr tt)
  /\ List.map is_fetch
       (trace (on_message Sample.cfg_open (Sample.world_with Sample.familia)
                 Sample.in_group))
     = [false; false; true].
Proof. split; reflexivity. Qed.

(** Scenario 4: a photo whose source gives no file name. *)
Example scenario_media :
  List.map (fun k => obj_get k Sample.photo_envelope)
    ["type"; "mimetype"; "filename"; "data_base64"]
  = [JStr "media"; JStr "image/jpeg"; JStr "file.bin";
     JStr "/9j/4AAQSkZJRg=="].
Proof. reflexivity. Qed.

(** Scenario 5: a QR code is published, then cleared when the session is
    ready. *)
Example scenario_qr_then_ready :
  trace (run Sample.cfg_open [(Sample.online, Qr "ABC"); (Sample.online, Ready)])
  = [ConsoleLog "Escaneá este QR:"; QrcodeGenerate "ABC";
     qr_request Sample.cfg_open (JStr "ABC");
     ConsoleLog "WA listo ✅";
     qr_request Sample.cfg_open JNull]
  /\ JSON.stringify [("qr", JNull)]
     = String.append "{" (String.append (JSON.quote "qr") ":null}").
Proof. split; reflexivity. Qed.
(* ===================================================================== *)
(** ** Strings: prefixes, [split], [replace], [trim] *)
(* ===================================================================== *)

Lemma append_cons (c : ascii) (a b : string) :
  String.append (String c a) b = String c (String.append a b).
Proof. reflexivity. Qed.

Lemma append_empty_l (s : string) : String.append "" s = s.
Proof. reflexivity. Qed.

Lemma append_empty_r (s : string) : String.append s "" = s.
Proof.
  induction s as [|c s IH]; [reflexivity|]. now rewrite append_cons, IH.
Qed.

Lemma append_assoc (a b c : string) :
  String.append (String.append a b) c = String.append a (String.append b c).
Proof.
  induction a as [|x a IH]; [reflexivity|]. now rewrite !append_cons, IH.
Qed.

Lemma length_append (a b : string) :
  String.length (String.append a b) = (String.length a + String.length b)%nat.
Proof.
  induction a as [|x a IH]; [reflexivity|].
  rewrite append_cons. cbn [String.length]. now rewrite IH.
Qed.

Lemma contains_char_append (c : ascii) (a b : string) :
  contains_char c (String.append a b) = contains_char c a || contains_char c b.
Proof.
  induction a as [|x a IH]; [reflexivity|].
  rewrite append_cons. cbn [contains_char]. rewrite IH. now rewrite orb_assoc.
Qed.

Lemma strip_prefix_append (w x : string) :
  strip_prefix w (String.append w x) = Some x.
Proof.
  induction w as [|a w IH]; [now destruct x|].
  rewrite append_cons. cbn [strip_prefix]. now rewrite Ascii.eqb_refl.
Qed.

Lemma strip_prefix_Some (w s r : string) :
  strip_prefix w s = Some r -> s = String.append w r.
Proof.
  revert s. induction w as [|a w IH]; intros s; simpl.
  - destruct s; intros H; now injection H as <-.
  - destruct s as [|b s]; [discriminate|].
    destruct (Ascii.eqb a b) eqn:E; [|discriminate].
    apply Ascii.eqb_eq in E. subst b. intros H.
    now rewrite (IH _ H), append_cons.
Qed.

Lemma strip_prefix_longer (w u r x : string) :
  strip_prefix w u = Some r ->
  strip_prefix w (String.append u x) = Some (String.append r x).
Proof.
  intros H. apply strip_prefix_Some in H. subst u.
  rewrite append_assoc. apply strip_prefix_append.
Qed.

(** Of two prefixes of one string, one is a prefix of the other. *)
Lemma strip_prefix_cross (w' w x r : string) :
  strip_prefix w' (String.append w x) = Some r ->
  is_Some (strip_prefix w' w) \/ is_Some (strip_prefix w w').
Proof.
  revert w. induction w' as [|a w' IH]; intros w; simpl.
  - intros _. left. destruct w; now eexists.
  - destruct w as [|b w].
    + intros _. right. now eexists.
    + rewrite append_cons. cbn [strip_prefix]. rewrite (Ascii.eqb_sym b a).
      destruct (Ascii.eqb a b); [apply IH | discriminate].
Qed.

(** No whitespace character is a prefix of another one. *)
Lemma js_whitespace_prefix_free (w w' : string) :
  In w js_whitespace -> In w' js_whitespace ->
  is_Some (strip_prefix w w') -> w = w'.
Proof.
  assert (List.forallb (fun a => List.forallb (fun b =>
            match strip_prefix a b with
            | Some _ => String.eqb a b
            | None => true
            end) js_whitespace) js_whitespace = true) as H
    by (vm_compute; reflexivity).
  rewrite forallb_forall in H. intros Hw Hw' [r Hr].
  specialize (H w Hw). rewrite forallb_forall in H. specialize (H w' Hw').
  rewrite Hr in H. now apply String.eqb_eq.
Qed.

Lemma js_whitespace_not_empty (w : string) :
  In w js_whitespace -> (0 < String.length w)%nat.
Proof.
  assert (List.forallb (fun a => Nat.ltb 0 (String.length a)) js_whitespace
          = true) as H by (vm_compute; reflexivity).
  rewrite forallb_forall in H. intros Hw. now apply Nat.ltb_lt, H.
Qed.

Lemma strip_any_Some (ws : list string) (s r : string) :
  strip_any ws s = Some r -> exists w, In w ws /\ s = String.append w r.
Proof.
  induction ws as [|w ws IH]; simpl; [discriminate|].
  destruct (strip_prefix w s) as [r'|] eqn:E.
  - intros H. injection H as ->. exists w. split; [now left|].
    now apply strip_prefix_Some.
  - intros H. destruct (IH H) as (w' & Hin & ->). exists w'. split; [now right | reflexivity].
Qed.

Lemma strip_any_longer (ws : list string) (u r x : string) :
  strip_any ws u = Some r -> is_Some (strip_any ws (String.append u x)).
Proof.
  induction ws as [|w ws IH]; simpl; [discriminate|].
  destruct (strip_prefix w u) as [r'|] eqn:E.
  - intros _. rewrite (strip_prefix_longer _ _ _ x E). now eexists.
  - intros H. destruct (strip_prefix w (String.append u x)); [now eexists | now apply IH].
Qed.

(** A string that starts with a whitespace character loses exactly it. *)
Lemma strip_any_whitespace (w x : string) :
  In w js_whitespace ->
  strip_any js_whitespace (String.append w x) = Some x.
Proof.
  intros Hw.
  assert (forall l, (forall a, In a l -> In a js_whitespace) -> In w l ->
                    strip_any l (String.append w x) = Some x) as H.
  { induction l as [|a l IH]; intros Hall Hin; [contradiction|]. simpl.
    destruct (strip_prefix a (String.append w x)) as [r|] eqn:E.
    - assert (a = w) as ->.
      { destruct (strip_prefix_cross _ _ _ _ E) as [H | H].
        - apply js_whitespace_prefix_free; auto. apply Hall. now left.
        - symmetry. apply js_whitespace_prefix_free; auto. apply Hall. now left. }
      rewrite strip_prefix_append in E. now symmetry.
    - destruct Hin as [-> | Hin].
      + rewrite strip_prefix_append in E. discriminate.
      + apply IH; [|exact Hin]. intros b Hb. apply Hall. now right. }
  apply H; auto.
Qed.

Lemma strip_any_shorter (s r : string) :
  strip_any js_whitespace s = Some r ->
  (String.length r < String.length s)%nat.
Proof.
  intros H. apply strip_any_Some in H. destruct H as (w & Hw & ->).
  rewrite length_append. apply js_whitespace_not_empty in Hw. lia.
Qed.

Lemma trim_start_fuel_enough (n m : nat) (s : string) :
  (String.length s <= n)%nat -> (String.length s <= m)%nat ->
  trim_start_fuel n s = trim_start_fuel m s.
Proof.
  revert m s. induction n as [|n IH]; intros m s Hn Hm.
  - destruct s; [|cbn [String.length] in Hn; lia]. destruct m; reflexivity.
  - destruct m as [|m].
    + destruct s; [reflexivity | cbn [String.length] in Hm; lia].
    + cbn [trim_start_fuel].
      destruct (strip_any js_whitespace s) as [r|] eqn:E; [|reflexivity].
      apply strip_any_shorter in E. apply IH; lia.
Qed.

Lemma trimStart_step (s r : string) :
  strip_any js_whitespace s = Some r -> trimStart s = trimStart r.
Proof.
  intros H. unfold trimStart.
  pose proof (strip_any_shorter _ _ H) as Hlt.
  destruct (String.length s) as [|n] eqn:L; [lia|].
  cbn [trim_start_fuel]. rewrite H. apply trim_start_fuel_enough; lia.
Qed.

Lemma trimStart_fixed (s : string) :
  strip_any js_whitespace s = None -> trimStart s = s.
Proof.
  intros H. unfold trimStart. destruct (String.length s);
    cbn [trim_start_fuel]; [reflexivity | now rewrite H].
Qed.

(** Induction on a string along its length. *)
Lemma string_length_ind (P : string -> Prop) :
  (forall s, (forall r, (String.length r < String.length s)%nat -> P r) -> P s) ->
  forall s, P s.
Proof.
  intros H s.
  assert (forall n r, (String.length r < n)%nat -> P r) as Hn.
  { induction n as [|n IH]; intros r Hr; [lia|].
    apply H. intros r' Hr'. apply IH. lia. }
  apply (Hn (S (String.length s))). lia.
Qed.

Lemma trimStart_no_whitespace (s : string) :
  strip_any js_whitespace (trimStart s) = None.
Proof.
  induction s as [s IH] using string_length_ind.
  destruct (strip_any js_whitespace s) as [r|] eqn:E.
  - rewrite (trimStart_step _ _ E). apply IH. now apply strip_any_shorter.
  - now rewrite (trimStart_fixed _ E).
Qed.

Lemma trimStart_suffix (s : string) :
  exists l, s = String.append l (trimStart s) /\ is_blank l = true.
Proof.
  induction s as [s IH] using string_length_ind.
  destruct (strip_any js_whitespace s) as [r|] eqn:E.
  - rewrite (trimStart_step _ _ E).
    destruct (IH r (strip_any_shorter _ _ E)) as (l & Hl & Hb).
    destruct (strip_any_Some _ _ _ E) as (w & Hw & ->).
    exists (String.append w l). split.
    + rewrite append_assoc. now rewrite <- Hl.
    + unfold is_blank.
      rewrite (trimStart_step _ l (strip_any_whitespace w l Hw)). exact Hb.
  - exists "". split; [now rewrite (trimStart_fixed _ E) | reflexivity].
Qed.

(** Leading whitespace in front of [b] does not change [trimStart]. *)
Lemma trimStart_blank_append (a b : string) :
  is_blank a = true -> trimStart (String.append a b) = trimStart b.
Proof.
  induction a as [a IH] using string_length_ind. intros Hb.
  destruct (strip_any js_whitespace a) as [r|] eqn:E.
  - destruct (strip_any_Some _ _ _ E) as (w & Hw & ->).
    rewrite append_assoc.
    rewrite (trimStart_step _ _ (strip_any_whitespace w _ Hw)).
    apply IH; [now apply strip_any_shorter|].
    unfold is_blank in *. now rewrite <- (trimStart_step _ _ E).
  - unfold is_blank in Hb. rewrite (trimStart_fixed _ E) in Hb.
    apply String.eqb_eq in Hb. now subst a.
Qed.

Lemma is_blank_append (a b : string) :
  is_blank a = true -> is_blank b = true ->
  is_blank (String.append a b) = true.
Proof.
  intros Ha Hb. unfold is_blank. now rewrite trimStart_blank_append.
Qed.

Lemma trimEnd_prefix (s : string) :
  exists r, s = String.append (trimEnd s) r /\ is_blank r = true.
Proof.
  induction s as [|c s (r & Hr & Hb)]; [now exists ""|].
  cbn [trimEnd]. destruct (is_blank (String c s)) eqn:B.
  - now exists (String c s).
  - exists r. split; [now rewrite append_cons, <- Hr | exact Hb].
Qed.

Lemma trimEnd_idempotent (s : string) : trimEnd (trimEnd s) = trimEnd s.
Proof.
  induction s as [|c s IH]; [reflexivity|].
  cbn [trimEnd]. destruct (is_blank (String c s)) eqn:B; [reflexivity|].
  cbn [trimEnd]. destruct (is_blank (String c (trimEnd s))) eqn:B'.
  - destruct (trimEnd_prefix s) as (r & Hr & Hb).
    pose proof (is_blank_append _ _ B' Hb) as H.
    rewrite append_cons, <- Hr in H. congruence.
  - now rewrite IH.
Qed.

Lemma trimEnd_no_whitespace (s : string) :
  strip_any js_whitespace s = None ->
  strip_any js_whitespace (trimEnd s) = None.
Proof.
  intros H. destruct (trimEnd_prefix s) as (r & Hr & _).
  destruct (strip_any js_whitespace (trimEnd s)) as [x|] eqn:E; [|reflexivity].
  destruct (strip_any_longer _ _ _ r E) as [y Hy].
  rewrite <- Hr in Hy. congruence.
Qed.

Lemma trim_idempotent (s : string) : trim (trim s) = trim s.
Proof.
  unfold trim at 1.
  rewrite (trimStart_fixed (trim s)).
  - unfold trim. apply trimEnd_idempotent.
  - apply trimEnd_no_whitespace, trimStart_no_whitespace.
Qed.

(** [trim] keeps a stretch of the string: what it drops on either side is
    whitespace only. *)
Lemma trim_substring (s : string) :
  exists l r,
    s = String.append l (String.append (trim s) r)
    /\ is_blank l = true /\ is_blank r = true.
Proof.
  destruct (trimStart_suffix s) as (l & Hl & Hbl).
  destruct (trimEnd_prefix (trimStart s)) as (r & Hr & Hbr).
  exists l, r. unfold trim. now rewrite <- Hr.
Qed.

Lemma js_split_not_nil (c : ascii) (s : string) : js_split c s <> [].
Proof.
  destruct s as [|a s]; cbn [js_split]; [discriminate|].
  destruct (Ascii.eqb a c); [discriminate|].
  destruct (js_split c s); discriminate.
Qed.

Lemma js_split_pieces (c : ascii) (s : string) (p : string) :
  In p (js_split c s) -> contains_char c p = false.
Proof.
  revert p. induction s as [|a s IH]; intros p; cbn [js_split].
  - intros [<- | []]. reflexivity.
  - destruct (Ascii.eqb a c) eqn:E.
    + intros [<- | H]; [reflexivity | now apply IH].
    + destruct (js_split c s) as [|h t] eqn:S.
      * intros [<- | []]. cbn [contains_char]. now rewrite E.
      * intros [<- | H].
        -- cbn [contains_char]. rewrite E. apply IH. now left.
        -- apply IH. now right.
Qed.

Lemma join_with_cons (c : ascii) (p : string) (rest : list string) :
  rest <> [] ->
  join_with c (p :: rest) = String.append p (String c (join_with c rest)).
Proof. destruct rest; [congruence | reflexivity]. Qed.

Lemma join_split (c : ascii) (s : string) : join_with c (js_split c s) = s.
Proof.
  induction s as [|a s IH]; [reflexivity|]. cbn [js_split].
  destruct (Ascii.eqb a c) eqn:E.
  - apply Ascii.eqb_eq in E. subst a.
    rewrite join_with_cons by apply js_split_not_nil. now rewrite IH.
  - pose proof (js_split_not_nil c s) as Hne.
    destruct (js_split c s) as [|h t]; [congruence|].
    destruct t as [|h' t].
    + cbn [join_with] in *. now rewrite IH.
    + rewrite join_with_cons in IH by discriminate.
      rewrite join_with_cons by discriminate.
      now rewrite append_cons, IH.
Qed.

Lemma js_split_whole (c : ascii) (p : string) :
  contains_char c p = false -> js_split c p = [p].
Proof.
  induction p as [|a p IH]; [reflexivity|]. cbn [contains_char js_split].
  intros H. apply orb_false_iff in H. destruct H as [E H].
  rewrite E, (IH H). reflexivity.
Qed.

Lemma js_split_append (c : ascii) (p rest : string) :
  contains_char c p = false ->
  js_split c (String.append p (String c rest)) = p :: js_split c rest.
Proof.
  induction p as [|a p IH].
  - intros _. rewrite append_empty_l. cbn [js_split].
    now rewrite Ascii.eqb_refl.
  - cbn [contains_char]. intros H. apply orb_false_iff in H.
    destruct H as [E H]. rewrite append_cons. cbn [js_split].
    rewrite E, (IH H). reflexivity.
Qed.

Lemma split_join (c : ascii) (parts : list string) :
  parts <> [] ->
  (forall p, In p parts -> contains_char c p = false) ->
  js_split c (join_with c parts) = parts.
Proof.
  induction parts as [|p rest IH]; [congruence|]. intros _ Hall.
  destruct rest as [|q rest].
  - cbn [join_with]. apply js_split_whole, Hall. now left.
  - rewrite join_with_cons by discriminate.
    rewrite js_split_append by (apply Hall; now left).
    f_equal. apply IH; [discriminate|]. intros x Hx. apply Hall. now right.
Qed.

Lemma trim_blank (s : string) : is_blank s = true -> trim s = "".
Proof.
  unfold is_blank, trim. intros H. apply String.eqb_eq in H. now rewrite H.
Qed.

Lemma env_or_unset (env : gmap string string) (key fallback : string) :
  env !! key = None \/ env !! key = Some "" ->
  env_or env key fallback = fallback.
Proof.
  unfold env_or, js_or. intros [-> | ->]; reflexivity.
Qed.

Lemma env_or_set (env : gmap string string) (key fallback value : string) :
  env !! key = Some value -> value <> "" ->
  env_or env key fallback = value.
Proof.
  unfold env_or, js_or. intros -> H. cbn [js_opt].
  apply truthy_JStr in H. now rewrite H.
Qed.

Lemma env_or_text (env : gmap string string) (key : string) :
  env_or env key "" = default "" (env !! key).
Proof.
  destruct (env !! key) as [v|] eqn:E.
  - destruct (String.eqb v "") eqn:Ev.
    + apply String.eqb_eq in Ev. subst v.
      rewrite env_or_unset by now right. reflexivity.
    + apply String.eqb_neq in Ev. now rewrite (env_or_set _ _ _ v E Ev).
  - rewrite env_or_unset by now left. reflexivity.
Qed.

Lemma parse_whitelist_entry (text e : string) :
  In e (parse_whitelist text) ->
  e <> "" /\ trim e = e /\ contains_char comma e = false.
Proof.
  unfold parse_whitelist. rewrite filter_In, in_map_iff.
  intros ((p & <- & Hp) & Ht). split; [now apply truthy_JStr|].
  split; [apply trim_idempotent|].
  apply js_split_pieces in Hp.
  destruct (trim_substring p) as (l & r & Hs & _ & _).
  rewrite Hs, !contains_char_append in Hp.
  apply orb_false_iff in Hp. destruct Hp as [_ Hp].
  apply orb_false_iff in Hp. now destruct Hp.
Qed.

Lemma parse_whitelist_join (names : list string) :
  (forall n, In n names ->
     n <> "" /\ trim n = n /\ contains_char comma n = false) ->
  parse_whitelist (join_with comma names) = names.
Proof.
  intros Hall. destruct names as [|n0 names]; [reflexivity|].
  unfold parse_whitelist. rewrite split_join; [|discriminate|].
  - remember (n0 :: names) as l eqn:Hl. clear Hl.
    induction l as [|n l IH]; [reflexivity|]. cbn [List.map List.filter].
    destruct (Hall n (or_introl eq_refl)) as (Hne & Ht & _).
    rewrite Ht. apply truthy_JStr in Hne. rewrite Hne. f_equal.
    apply IH. intros x Hx. apply Hall. now right.
  - intros p Hp. now apply Hall.
Qed.

Lemma parse_whitelist_blank (text : string) :
  (forall p, In p (js_split comma text) -> is_blank p = true) ->
  parse_whitelist text = [].
Proof.
  unfold parse_whitelist. induction (js_split comma text) as [|p l IH];
    [reflexivity|]. intros Hall. cbn [List.map List.filter].
  rewrite (trim_blank p) by (apply Hall; now left). cbn [truthy String.eqb negb].
  apply IH. intros x Hx. apply Hall. now right.
Qed.

Lemma first_index_occurs (pat s : string) (n : nat) :
  first_index pat s = Some n ->
  occurs_at pat s n /\ forall m, occurs_at pat s m -> (n <= m)%nat.
Proof.
  revert n. induction s as [|c s IH]; intros n; cbn [first_index].
  - destruct (strip_prefix pat "") as [r|] eqn:E; [|discriminate].
    intros H. injection H as <-. split; [|intros; lia].
    exists "", r. split; [|reflexivity].
    rewrite append_empty_l. now apply strip_prefix_Some.
  - destruct (strip_prefix pat (String c s)) as [r|] eqn:E.
    + intros H. injection H as <-. split; [|intros; lia].
      exists "", r. split; [|reflexivity].
      rewrite append_empty_l. now apply strip_prefix_Some.
    + destruct (first_index pat s) as [k|]; [|discriminate].
      intros H. injection H as <-.
      destruct (IH k eq_refl) as ((before & rest & Hs & Hlen) & Hleft). split.
      * exists (String c before), rest. split.
        -- now rewrite append_cons, <- Hs.
        -- cbn [String.length]. now rewrite Hlen.
      * intros m (b & r & Hs' & Hlen').
        destruct b as [|c' b].
        -- rewrite append_empty_l in Hs'. rewrite Hs' in E.
           rewrite strip_prefix_append in E. discriminate.
        -- rewrite append_cons in Hs'. injection Hs' as -> Hs'.
           cbn [String.length] in Hlen'. subst m.
           apply le_n_S, Hleft. now exists b, r.
Qed.

Lemma first_index_none (pat s : string) (m : nat) :
  first_index pat s = None -> ~ occurs_at pat s m.
Proof.
  revert m. induction s as [|c s IH]; intros m; cbn [first_index].
  - destruct (strip_prefix pat "") as [r|] eqn:E; [discriminate|].
    intros _ (b & r & Hs & _). destruct b; [|discriminate].
    rewrite append_empty_l in Hs. rewrite Hs, strip_prefix_append in E.
    discriminate.
  - destruct (strip_prefix pat (String c s)) as [r|] eqn:E; [discriminate|].
    destruct (first_index pat s) as [k|]; [discriminate|].
    intros _ (b & r & Hs & Hlen). destruct b as [|c' b].
    + rewrite append_empty_l in Hs. rewrite Hs, strip_prefix_append in E.
      discriminate.
    + rewrite append_cons in Hs. injection Hs as -> Hs.
      apply (IH (String.length b) eq_refl). now exists b, r.
Qed.

(** [replace] leaves a string without the pattern as it is. *)
Lemma js_replace_absent (pat rep s : string) :
  (forall n, ~ occurs_at pat s n) -> js_replace pat rep s = s.
Proof.
  induction s as [|c s IH]; intros Hno; cbn [js_replace].
  - destruct (strip_prefix pat "") as [r|] eqn:E; [|reflexivity].
    exfalso. apply (Hno O). exists "", r. split; [|reflexivity].
    rewrite append_empty_l. now apply strip_prefix_Some.
  - destruct (strip_prefix pat (String c s)) as [r|] eqn:E.
    + exfalso. apply (Hno O). exists "", r. split; [|reflexivity].
      rewrite append_empty_l. now apply strip_prefix_Some.
    + f_equal. apply IH. intros n (b & r & Hs & Hlen).
      apply (Hno (S n)). exists (String c b), r. split.
      * now rewrite append_cons, <- Hs.
      * cbn [String.length]. now rewrite Hlen.
Qed.

(** [replace] rewrites the leftmost occurrence and keeps the rest. *)
Lemma js_replace_leftmost (pat rep before rest : string) :
  (forall m, occurs_at pat (String.append before (String.append pat rest)) m ->
             (String.length before <= m)%nat) ->
  js_replace pat rep (String.append before (String.append pat rest))
  = String.append before (String.append rep rest).
Proof.
  induction before as [|c b IH]; intros Hleft.
  - rewrite !append_empty_l.
    destruct (String.append pat rest) eqn:S; cbn [js_replace]; rewrite <- S;
      now rewrite strip_prefix_append.
  - rewrite !append_cons. cbn [js_replace].
    destruct (strip_prefix pat (String c (String.append b (String.append pat rest))))
      as [r|] eqn:E.
    + exfalso. apply strip_prefix_Some in E.
      assert (String.length (String c b) <= 0)%nat as H.
      { apply Hleft. exists "", r. split; [|reflexivity].
        now rewrite append_empty_l, append_cons. }
      cbn [String.length] in H. lia.
    + f_equal. apply IH. intros m (b' & r' & Hs & Hlen).
      assert (String.length (String c b) <= S m)%nat as H.
      { apply Hleft. exists (String c b'), r'. split.
        - now rewrite !append_cons, <- Hs.
        - cbn [String.length]. now rewrite Hlen. }
      cbn [String.length] in H. lia.
Qed.

(* ===================================================================== *)
(** ** The configuration *)
(* ===================================================================== *)

Lemma resolved_whitelist (env : gmap string string) :
  GROUP_WHITELIST (resolve_config env)
  = parse_whitelist (default "" (env !! "GROUP_WHITELIST")).
Proof. cbn [resolve_config GROUP_WHITELIST]. now rewrite env_or_text. Qed.

Lemma resolved_secret (env : gmap string string) :
  HMAC_SECRET (resolve_config env) = HMAC_SECRET_of_env (env !! "HMAC_SECRET").
Proof. reflexivity. Qed.

(** X1: every entry of the whitelist read from [GROUP_WHITELIST] is a
    non-empty string without a comma and with no whitespace at either
    end. *)
Theorem whitelist_entries_listable (env : gmap string string) (e : string) :
  In e (GROUP_WHITELIST (resolve_config env)) -> listable e.
Proof.
  rewrite resolved_whitelist. apply parse_whitelist_entry.
Qed.

Lemma whitelist_entries_listable_witness : listable "Mi grupo".
Proof.
  apply (whitelist_entries_listable SampleEnv.whitelisted).
  vm_compute. right. left. reflexivity.
Defined.

(** X2: a list of names that are not empty, have no comma and no
    whitespace at either end, written into [GROUP_WHITELIST] with commas
    between them, is read back as the same list, in the same order. *)
Theorem whitelist_round_trip (env : gmap string string)
    (names : list string) :
  (forall n, In n names -> listable n) ->
  env !! "GROUP_WHITELIST" = Some (join_with comma names) ->
  GROUP_WHITELIST (resolve_config env) = names.
Proof.
  intros Hall Henv. rewrite resolved_whitelist, Henv. cbn [default].
  now apply parse_whitelist_join.
Qed.

Lemma whitelist_round_trip_witness :
  GROUP_WHITELIST
    (resolve_config {[ "GROUP_WHITELIST" := "Trabajo,Mi grupo" ]})
  = ["Trabajo"; "Mi grupo"].
Proof.
  apply whitelist_round_trip.
  - intros n [<- | [<- | []]]; repeat split; vm_compute; congruence.
  - reflexivity.
Defined.

(** X3: the whitelist comes out empty, and so every chat is forwarded,
    exactly when [GROUP_WHITELIST] is unset or holds nothing but commas and
    whitespace. *)
Theorem blank_whitelist_disables_filter (env : gmap string string) :
  (GROUP_WHITELIST (resolve_config env) = []
   <-> forall p, In p (js_split comma (default "" (env !! "GROUP_WHITELIST")))
                 -> is_blank p = true)
  /\ (GROUP_WHITELIST (resolve_config env) = [] ->
      forall chat, shouldForward (GROUP_WHITELIST (resolve_config env)) chat
                   = true).
Proof.
  split.
  - rewrite resolved_whitelist. split; [|apply parse_whitelist_blank].
    unfold parse_whitelist.
    induction (js_split comma (default "" (env !! "GROUP_WHITELIST")))
      as [|q l IH]; [intros _ p []|].
    cbn [List.map List.filter].
    destruct (truthy (JStr (trim q))) eqn:T; [discriminate|].
    intros Hnil p [<- | Hp]; [|now apply IH].
    assert (trim q = "") as Hq.
    { cbn [truthy] in T. apply negb_false_iff in T. now apply String.eqb_eq. }
    unfold trim in Hq. destruct (trimEnd_prefix (trimStart q)) as (r & Hr & Hb).
    rewrite Hq, append_empty_l in Hr. rewrite <- Hr in Hb.
    unfold is_blank in Hb.
    rewrite (trimStart_fixed _ (trimStart_no_whitespace q)) in Hb. exact Hb.
  - intros -> chat. apply shouldForward_no_whitelist.
Qed.

Lemma blank_whitelist_disables_filter_witness :
  shouldForward (GROUP_WHITELIST (resolve_config SampleEnv.blank_whitelist))
    Sample.familia = true.
Proof.
  apply (proj2 (blank_whitelist_disables_filter SampleEnv.blank_whitelist)).
  reflexivity.
Defined.

(** X4: under a non-empty whitelist read from [GROUP_WHITELIST], a group
    whose name is empty, contains a comma, or has whitespace at either end
    is never forwarded: the handler stops after the chat lookup. *)
Theorem unlistable_group_dropped (env : gmap string string) (w : world)
    (msg : Message.t) (chat : Chat.t) :
  getChat_answer w = Resolved chat ->
  Chat.isGroup chat = true ->
  GROUP_WHITELIST (resolve_config env) <> [] ->
  ~ listable (Chat.name chat) ->
  on_message (resolve_config env) w msg = ([GetChat], inr tt).
Proof.
  intros Hchat Hgroup Hne Hun.
  pose proof (shouldForward_gate (resolve_config env) w msg chat Hchat) as Hgate.
  destruct (shouldForward (GROUP_WHITELIST (resolve_config env)) chat) eqn:F;
    [|exact Hgate].
  apply (shouldForward_group _ _ Hgroup Hne) in F.
  rewrite resolved_whitelist in F. apply parse_whitelist_entry in F.
  contradiction.
Qed.

Lemma unlistable_group_dropped_witness :
  on_message (resolve_config SampleEnv.whitelisted)
    (Sample.world_with SampleEnv.padres) Sample.in_group
  = ([GetChat], inr tt).
Proof.
  apply (unlistable_group_dropped _ _ _ SampleEnv.padres).
  - reflexivity.
  - reflexivity.
  - vm_compute. discriminate.
  - intros (_ & _ & H). vm_compute in H. discriminate.
Defined.

(** X5: a non-empty [QR_ENDPOINT] variable is the QR endpoint as it is;
    without one, an ingestion URL that does not contain [/ingesta] is the
    QR endpoint too, so both kinds of envelope go to the same URL. *)
Theorem qr_endpoint_fallback (env : gmap string string) :
  (forall url, env !! "QR_ENDPOINT" = Some url -> url <> "" ->
               QR_ENDPOINT (resolve_config env) = url)
  /\ (env !! "QR_ENDPOINT" = None \/ env !! "QR_ENDPOINT" = Some "" ->
      (forall n, ~ occurs_at "/ingesta" (IA_ENDPOINT (resolve_config env)) n) ->
      QR_ENDPOINT (resolve_config env) = IA_ENDPOINT (resolve_config env)).
Proof.
  cbn [resolve_config QR_ENDPOINT IA_ENDPOINT]. split.
  - intros url Hurl Hne. now apply env_or_set.
  - intros Hunset Hno. rewrite (env_or_unset _ _ _ Hunset).
    now apply js_replace_absent.
Qed.

Lemma qr_endpoint_fallback_witness :
  QR_ENDPOINT (resolve_config SampleEnv.qr_override) = "http://panel.local/qr"
  /\ QR_ENDPOINT (resolve_config SampleEnv.other_path)
     = IA_ENDPOINT (resolve_config SampleEnv.other_path).
Proof.
  split.
  - apply (proj1 (qr_endpoint_fallback SampleEnv.qr_override));
      [reflexivity | discriminate].
  - apply (proj2 (qr_endpoint_fallback SampleEnv.other_path)).
    + left. reflexivity.
    + intros n. apply first_index_none. reflexivity.
Defined.

(** X6: without a [QR_ENDPOINT] variable, the QR endpoint is the ingestion
    URL with its leftmost [/ingesta] turned into [/qr]; what comes before
    and after it, later occurrences included, is kept. *)
Theorem qr_endpoint_leftmost (env : gmap string string)
    (before rest : string) :
  env !! "QR_ENDPOINT" = None \/ env !! "QR_ENDPOINT" = Some "" ->
  IA_ENDPOINT (resolve_config env)
  = String.append before (String.append "/ingesta" rest) ->
  (forall m, occurs_at "/ingesta" (IA_ENDPOINT (resolve_config env)) m ->
             (String.length before <= m)%nat) ->
  QR_ENDPOINT (resolve_config env)
  = String.append before (String.append "/qr" rest).
Proof.
  cbn [resolve_config QR_ENDPOINT IA_ENDPOINT].
  intros Hunset -> Hleft. rewrite (env_or_unset _ _ _ Hunset).
  now apply js_replace_leftmost.
Qed.

Lemma qr_endpoint_leftmost_witness :
  QR_ENDPOINT (resolve_config SampleEnv.twice)
  = "http://relay.local/qr/v2/ingesta".
Proof.
  apply (qr_endpoint_leftmost SampleEnv.twice "http://relay.local"
           "/v2/ingesta").
  - left. reflexivity.
  - reflexivity.
  - apply (first_index_occurs "/ingesta"
             "http://relay.local/ingesta/v2/ingesta" 18). reflexivity.
Defined.

Lemma env_or_insert_empty (env : gmap string string)
    (k key fallback : string) :
  env_or (<[ k := "" ]> env) key fallback = env_or (delete k env) key fallback.
Proof.
  unfold env_or. destruct (decide (k = key)) as [-> | Hne].
  - now rewrite lookup_insert_eq, lookup_delete_eq.
  - now rewrite lookup_insert_ne, lookup_delete_ne.
Qed.

(** X7: a variable set to the empty string counts as not set: the
    configuration is the one read without it, defaults included. *)
Theorem empty_variable_is_unset (env : gmap string string) (k : string) :
  resolve_config (<[ k := "" ]> env) = resolve_config (delete k env).
Proof.
  unfold resolve_config. now rewrite !env_or_insert_empty.
Qed.

(* ===================================================================== *)
(** ** Requests: how many, where to, and with which headers *)
(* ===================================================================== *)

Lemma is_fetch_lookup_call (msg : Message.t) : is_fetch (lookup_call msg) = false.
Proof. unfold lookup_call. now destruct (truthy _). Qed.

Lemma requests_of_message (cfg : config) (w : world) (msg : Message.t) :
  List.filter is_fetch (trace (on_message cfg w msg)) = []
  \/ exists p, envelope_of cfg w msg p
               /\ List.filter is_fetch (trace (on_message cfg w msg))
                  = [delivery cfg p].
Proof.
  destruct (List.existsb is_fetch (trace (on_message cfg w msg))) eqn:Hex.
  - right. apply existsb_exists in Hex. destruct Hex as (c & Hin & Hc).
    destruct (posted_envelope cfg w msg c Hc Hin) as (p & Henv & ->).
    exists p. split; [exact Henv|]. clear Hin Hc.
    destruct Henv as (chat & Hchat & Hpass & Hp). revert Hp.
    rewrite on_message_eq, Hchat, Hpass. unfold produces.
    rewrite build_payload_eq. cbv zeta.
    destruct (Message.hasMedia msg);
      [destruct (downloadMedia_answer w) as [[m|]|e]|];
      cbn [snd]; intros Hp; try discriminate; injection Hp as <-;
      destruct (fetch_answer w); cbn; rewrite is_fetch_lookup_call;
      reflexivity.
  - left. induction (trace (on_message cfg w msg)) as [|c t IH];
      [reflexivity|]. cbn [List.existsb] in Hex.
    apply orb_false_iff in Hex. destruct Hex as [Hc Ht].
    cbn [List.filter]. rewrite Hc. now apply IH.
Qed.

Lemma requests_of_event (cfg : config) (w : world) (ev : event) :
  List.filter is_fetch (trace (handle cfg w ev)) = []
  \/ exists o,
       List.filter is_fetch (trace (handle cfg w ev))
       = [Fetch (endpoint_of cfg ev)
            (sign_headers (HMAC_SECRET cfg) (JSON.stringify o))
            (JSON.stringify o)].
Proof.
  destruct ev as [qr| |msg]; cbn [handle endpoint_of].
  - rewrite on_qr_eq. destruct (qrcode_generate_answer w); [|now left].
    right. exists [("qr", JStr qr)].
    destruct (fetch_answer w); reflexivity.
  - rewrite on_ready_eq. right. now exists [("qr", JNull)].
  - destruct (requests_of_message cfg w msg) as [H | (p & _ & H)];
      [now left | right]. now exists p.
Qed.

Lemma in_filter_fetch (c : io) (t : list io) :
  is_fetch c = true -> In c t -> In c (List.filter is_fetch t).
Proof. intros Hc Hin. apply filter_In. now split. Qed.

(** X8: an event leads to at most one POST, whatever the world answers:
    there is no retry. *)
Theorem at_most_one_post (cfg : config) (w : world) (ev : event) :
  (List.length (List.filter is_fetch (trace (handle cfg w ev))) <= 1)%nat.
Proof.
  destruct (requests_of_event cfg w ev) as [-> | (o & ->)]; cbn; lia.
Qed.

(** X9: every POST of a message event goes to the ingestion endpoint, and
    every POST of a QR or ready event to the QR endpoint. *)
Theorem post_goes_to_its_endpoint (cfg : config) (w : world) (ev : event)
    (url : string) (headers : gmap string string) (body : string) :
  In (Fetch url headers body) (trace (handle cfg w ev)) ->
  url = endpoint_of cfg ev.
Proof.
  intros Hin.
  apply (in_filter_fetch (Fetch url headers body) _ eq_refl) in Hin.
  destruct (requests_of_event cfg w ev) as [H | (b & H)]; rewrite H in Hin.
  - contradiction.
  - destruct Hin as [Heq | []]. now injection Heq.
Qed.

Lemma post_goes_to_its_endpoint_witness :
  IA_ENDPOINT Sample.cfg_open = endpoint_of Sample.cfg_open (MessageEv Sample.hola).
Proof.
  apply (post_goes_to_its_endpoint Sample.cfg_open Sample.online
           (MessageEv Sample.hola) _
           (sign_headers "" (JSON.stringify Sample.hola_envelope))
           (JSON.stringify Sample.hola_envelope)).
  cbn. right. right. left. reflexivity.
Defined.

(** X10: the headers of every POST are computed from the very body that is
    sent: [Content-Type] is always [application/json]; with a secret
    configured, [x-signature] is the HMAC-SHA256 of that body in hex; with
    no secret there is no [x-signature]. *)
Theorem post_signs_its_body (cfg : config) (w : world) (ev : event)
    (url : string) (headers : gmap string string) (body : string) :
  In (Fetch url headers body) (trace (handle cfg w ev)) ->
  headers !! "Content-Type" = Some "application/json"
  /\ (HMAC_SECRET cfg <> "" ->
      headers !! "x-signature"
      = Some (createHmac_sha256_hex (HMAC_SECRET cfg) body))
  /\ (HMAC_SECRET cfg = "" -> headers !! "x-signature" = None).
Proof.
  intros Hin.
  apply (in_filter_fetch (Fetch url headers body) _ eq_refl) in Hin.
  destruct (requests_of_event cfg w ev) as [H | (b & H)]; rewrite H in Hin;
    [contradiction|].
  destruct Hin as [Heq | []]. injection Heq as _ <- <-.
  split; [|split].
  - unfold sign_headers. destruct (truthy _).
    + rewrite lookup_insert_ne by discriminate. apply lookup_singleton_eq.
    + apply lookup_singleton_eq.
  - intros Hne. rewrite (sign_headers_signed _ _ Hne). apply lookup_insert_eq.
  - intros ->. rewrite sign_headers_unsigned.
    apply lookup_singleton_ne. discriminate.
Qed.

Lemma post_signs_its_body_witness :
  sign_headers "s3cr3t" (JSON.stringify [("qr", JNull)]) !! "x-signature"
  = Some (createHmac_sha256_hex "s3cr3t" (JSON.stringify [("qr", JNull)])).
Proof.
  apply (post_signs_its_body Sample.cfg Sample.online Ready
           (QR_ENDPOINT Sample.cfg)
           (sign_headers "s3cr3t" (JSON.stringify [("qr", JNull)]))
           (JSON.stringify [("qr", JNull)])).
  - cbn. right. left. reflexivity.
  - discriminate.
Defined.

(** X11: a message of a group is posted only if the group is listed: with
    a non-empty whitelist, the [groupName] of every envelope with [isGroup]
    true that the handler serializes is one of the whitelist's names. *)
Theorem posted_group_is_listed (cfg : config) (w : world) (msg : Message.t)
    (p : obj) :
  envelope_of cfg w msg p ->
  GROUP_WHITELIST cfg <> [] ->
  obj_get "isGroup" p = JBool true ->
  exists name, In name (GROUP_WHITELIST cfg)
               /\ obj_get "groupName" p = JStr name.
Proof.
  intros (chat & Hchat & Hpass & Hp) Hne.
  destruct (produced_from_and_group w msg chat p Hp) as (_ & Hgroup & _).
  rewrite Hgroup. intros Hg. injection Hg as Hg.
  exists (Chat.name chat). split.
  - apply (shouldForward_group _ _ Hg Hne). unfold shouldForward.
    now rewrite Hpass.
  - apply produced_payload in Hp.
    destruct Hp as [[_ ->] | [_ (m & _ & ->)]]; cbn; unfold groupName_of;
      now rewrite Hg.
Qed.

Lemma posted_group_is_listed_witness :
  exists name, In name (GROUP_WHITELIST Sample.cfg)
               /\ obj_get "groupName"
                    (payload_of Sample.in_group Sample.trabajo (JStr "Ana"))
                  = JStr name.
Proof.
  apply (posted_group_is_listed Sample.cfg (Sample.world_with Sample.trabajo)
           Sample.in_group).
  - exists Sample.trabajo. repeat split.
  - discriminate.
  - reflexivity.
Defined.

(* ===================================================================== *)
(** ** Failures before the POST *)
(* ===================================================================== *)

(** X12: when the chat lookup is rejected, the handler logs that error and
    returns: no contact lookup, no download, no POST. *)
Theorem chat_lookup_failure_logged (cfg : config) (w : world)
    (msg : Message.t) (e : exn) :
  getChat_answer w = Rejected e ->
  on_message cfg w msg = ([GetChat; ConsoleError "Error" (Some e)], inr tt).
Proof. intros H. now rewrite on_message_eq, H. Qed.

Lemma chat_lookup_failure_logged_witness :
  on_message Sample.cfg SampleEnv.chat_down Sample.hola
  = ([GetChat; ConsoleError "Error" (Some (Rejection "Session closed"))],
     inr tt).
Proof. apply chat_lookup_failure_logged. reflexivity. Defined.

(** X13: the drawing of the QR code on the terminal is outside the [try]:
    when it throws, the QR handler makes no POST and the exception leaves
    the handler. *)
Theorem qr_drawing_failure_escapes (cfg : config) (w : world) (qr : string)
    (e : exn) :
  qrcode_generate_answer w = Rejected e ->
  on_qr cfg w qr
  = ([ConsoleLog "Escaneá este QR:"; QrcodeGenerate qr], inl e).
Proof. intros H. now rewrite on_qr_eq, H. Qed.

Lemma qr_drawing_failure_escapes_witness :
  on_qr Sample.cfg SampleEnv.no_terminal "ABC"
  = ([ConsoleLog "Escaneá este QR:"; QrcodeGenerate "ABC"],
     inl (TypeError "bad data")).
Proof. apply qr_drawing_failure_escapes. reflexivity. Defined.



(** X15: media is downloaded only for a message that declares media, whose
    chat lookup answered and which the filter let through. *)
Theorem download_only_for_forwarded_media (cfg : config) (w : world)
    (msg : Message.t) :
  In DownloadMedia (trace (on_message cfg w msg)) ->
  Message.hasMedia msg = true
  /\ exists chat, getChat_answer w = Resolved chat
                  /\ shouldForward (GROUP_WHITELIST cfg) chat = true.
Proof.
  rewrite on_message_eq. unfold shouldForward.
  destruct (getChat_answer w) as [chat|e];
    [|cbn; intros [H | [H | []]]; discriminate].
  destruct (whitelist_miss _ _ _) eqn:Hpass;
    [cbn; intros [H | []]; discriminate|].
  rewrite build_payload_eq. cbv zeta. intros Hin.
  split; [|exists chat; split; [reflexivity | now rewrite Hpass]].
  destruct (Message.hasMedia msg); [reflexivity|]. exfalso. revert Hin.
  unfold lookup_call.
  destruct (fetch_answer w); destruct (truthy _); cbn;
    intuition discriminate.
Qed.

Lemma download_only_for_forwarded_media_witness :
  Message.hasMedia Sample.photo = true.
Proof.
  apply (download_only_for_forwarded_media Sample.cfg_open Sample.online
           Sample.photo).
  cbn. right. right. left. reflexivity.
Defined.

(* ===================================================================== *)
(** ** More on the envelope *)
(* ===================================================================== *)

Lemma obj_get_set_eq (k : string) (v : jsval) (o : obj) :
  obj_get k (obj_set k v o) = v.
Proof.
  induction o as [|[k' v'] o IH]; cbn [obj_set obj_get].
  - now rewrite String.eqb_refl.
  - destruct (String.eqb k' k) eqn:E; cbn [obj_get]; rewrite E;
      [reflexivity | exact IH].
Qed.

Lemma obj_get_set_ne (k k' : string) (v : jsval) (o : obj) :
  k <> k' -> obj_get k' (obj_set k v o) = obj_get k' o.
Proof.
  intros Hne. induction o as [|[k0 v0] o IH]; cbn [obj_set obj_get].
  - apply String.eqb_neq in Hne. now rewrite Hne.
  - destruct (String.eqb k0 k) eqn:E; cbn [obj_get].
    + apply String.eqb_eq in E. subst k0.
      apply String.eqb_neq in Hne. now rewrite Hne.
    + destruct (String.eqb k0 k'); [reflexivity | exact IH].
Qed.

Lemma keys_obj_set (k : string) (v : jsval) (o : obj) :
  keys (obj_set k v o) = if has_key k o then keys o else (keys o ++ [k])%list.
Proof.
  unfold keys, has_key. induction o as [|[k0 v0] o IH]; [reflexivity|].
  cbn [obj_set List.existsb List.map fst].
  destruct (String.eqb k0 k) eqn:E; cbn [orb List.map fst]; [reflexivity|].
  rewrite IH. now destruct (List.existsb _ o).
Qed.

(** X16: the envelope has the ten properties of the object literal, in
    that order, followed for a media message by [mimetype], [filename] and
    [data_base64]; no property name occurs twice. *)
Theorem envelope_keys (w : world) (msg : Message.t) (chat : Chat.t)
    (p : obj) :
  produces (build_payload w msg chat) p ->
  keys p = (text_keys ++ if Message.hasMedia msg then media_keys else [])%list
  /\ List.NoDup (keys p).
Proof.
  intros Hp. apply produced_payload in Hp.
  assert (List.NoDup (text_keys ++ media_keys)%list) as Hnd.
  { apply NoDup_ListNoDup. apply (bool_decide_unpack _).
    vm_compute. reflexivity. }
  destruct Hp as [[Hm ->] | [Hm (m & _ & ->)]]; rewrite Hm.
  - split; [reflexivity|].
    apply List.NoDup_app_remove_r in Hnd. exact Hnd.
  - split; [reflexivity | exact Hnd].
Qed.

Lemma envelope_keys_witness :
  keys Sample.photo_envelope = (text_keys ++ media_keys)%list.
Proof.
  apply (envelope_keys Sample.online Sample.photo Sample.private_chat
           Sample.photo_envelope).
  reflexivity.
Defined.

(** X17: in a media envelope [mimetype] and [data_base64] are the
    downloaded media's type and data, unchanged, and [filename] is the
    media's file name when it has a non-empty one, else [file.bin]. *)
Theorem media_fields (w : world) (msg : Message.t) (chat : Chat.t) (p : obj) :
  produces (build_payload w msg chat) p ->
  Message.hasMedia msg = true ->
  exists m,
    downloadMedia_answer w = Resolved (Some m)
    /\ obj_get "mimetype" p = JStr (Media.mimetype m)
    /\ obj_get "data_base64" p = JStr (Media.data m)
    /\ (forall f, Media.filename m = Some f -> f <> "" ->
                  obj_get "filename" p = JStr f)
    /\ (Media.filename m = None \/ Media.filename m = Some "" ->
        obj_get "filename" p = JStr "file.bin").
Proof.
  intros Hp Hm. apply produced_payload in Hp.
  destruct Hp as [[Hm' _] | [_ (m & Hd & ->)]]; [congruence|].
  exists m. split; [exact Hd|]. split; [reflexivity|]. split; [reflexivity|].
  change (obj_get "filename" _)
    with (js_or (js_opt (Media.filename m)) (JStr "file.bin")).
  split.
  - intros f -> Hne. unfold js_or. cbn [js_opt].
    apply truthy_JStr in Hne. now rewrite Hne.
  - intros [-> | ->]; reflexivity.
Qed.

Lemma media_fields_witness :
  exists m,
    downloadMedia_answer Sample.online = Resolved (Some m)
    /\ obj_get "mimetype" Sample.photo_envelope = JStr (Media.mimetype m).
Proof.
  destruct (media_fields Sample.online Sample.photo Sample.private_chat
              Sample.photo_envelope eq_refl eq_refl) as (m & Hd & Ht & _).
  exists m. split; [exact Hd | exact Ht].
Defined.

(** X18: the four media assignments of lines 85-88 touch [type],
    [mimetype], [filename] and [data_base64] only: every other property of
    the object reads as before, and [type] reads [media]. *)
Theorem attach_media_keeps_the_rest (payload : obj) (media : Media.t)
    (k : string) :
  ~ In k ("type" :: media_keys) ->
  obj_get k (attach_media payload media) = obj_get k payload
  /\ obj_get "type" (attach_media payload media) = JStr "media".
Proof.
  intros Hk. unfold attach_media. split.
  - rewrite !obj_get_set_ne; [reflexivity|..]; intros <-; apply Hk;
      cbn; auto.
  - rewrite !obj_get_set_ne by discriminate. apply obj_get_set_eq.
Qed.

Lemma attach_media_keeps_the_rest_witness :
  obj_get "text" Sample.photo_envelope
  = obj_get "text" (payload_of Sample.photo Sample.private_chat (JStr "Ana")).
Proof.
  apply (attach_media_keeps_the_rest _ Sample.jpeg "text").
  cbn. intuition discriminate.
Defined.

Lemma before_first_no_sep (c : ascii) (s : string) :
  contains_char c (before_first c s) = false.
Proof.
  induction s as [|a s IH]; [reflexivity|]. cbn [before_first].
  destruct (Ascii.eqb a c) eqn:E; [reflexivity|].
  cbn [contains_char]. now rewrite E.
Qed.

Lemma before_first_prefix (c : ascii) (s : string) :
  exists rest, s = String.append (before_first c s) rest.
Proof.
  induction s as [|a s [rest IH]]; [now exists ""|]. cbn [before_first].
  destruct (Ascii.eqb a c).
  - now exists (String a s).
  - exists rest. now rewrite append_cons, <- IH.
Qed.

(** X19: a [senderNumber] that is present is a non-empty string without
    [@], and the message's [author] (or [from], when there is no author)
    starts with it. *)
Theorem senderNumber_shape (w : world) (msg : Message.t) (chat : Chat.t)
    (p : obj) (number : string) :
  produces (build_payload w msg chat) p ->
  obj_get "senderNumber" p = JStr number ->
  number <> ""
  /\ contains_char at_sign number = false
  /\ exists rest, author_or_from msg = String.append number rest.
Proof.
  intros Hp. rewrite (produced_senderNumber _ _ _ _ Hp).
  rewrite senderNumber_before_first. unfold js_or.
  destruct (truthy (JStr (before_first at_sign (author_or_from msg)))) eqn:T;
    [|discriminate].
  intros H. injection H as <-. split; [now apply truthy_JStr|].
  split; [apply before_first_no_sep | apply before_first_prefix].
Qed.

Lemma senderNumber_shape_witness :
  contains_char at_sign "5491100000000" = false.
Proof.
  apply (senderNumber_shape Sample.online Sample.hola Sample.private_chat
           Sample.hola_envelope "5491100000000"); reflexivity.
Defined.

Lemma senderName_first_nonempty (c : Contact.t) :
  senderName_of (Some c)
  = first_nonempty [Contact.pushname c; Contact.name c;
                    Contact.shortName c; Contact.verifiedName c].
Proof.
  unfold senderName_of, contact_label, js_or.
  destruct (Contact.pushname c) as [a|], (Contact.name c) as [b|],
    (Contact.shortName c) as [d|], (Contact.verifiedName c) as [e|];
    cbn [js_opt truthy first_nonempty];
    repeat match goal with
      | H : String.eqb ?x "" = _ |- context [String.eqb ?x ""] =>
          rewrite H; cbn [negb truthy]
      | |- context [String.eqb ?x ""] =>
          destruct (String.eqb x "") eqn:?; cbn [negb truthy]
      end;
    reflexivity.
Qed.

(** X20: [senderName] is the first non-empty one of the contact's
    [pushname], [name], [shortName] and [verifiedName], in that order, and
    [null] when the contact has none of them or the lookup gave no
    contact. *)
Theorem senderName_priority (w : world) (msg : Message.t) (chat : Chat.t)
    (p : obj) :
  produces (build_payload w msg chat) p ->
  obj_get "senderName" p
  = match contact_answer w with
    | Resolved (Some c) =>
        first_nonempty [Contact.pushname c; Contact.name c;
                        Contact.shortName c; Contact.verifiedName c]
    | Resolved None | Rejected _ => JNull
    end.
Proof.
  intros Hp.
  destruct (produced_from_and_group w msg chat p Hp) as (_ & _ & _ & -> & _).
  unfold senderName_in. destruct (contact_answer w) as [[c|]|e];
    [apply senderName_first_nonempty | reflexivity | reflexivity].
Qed.

Lemma senderName_priority_witness :
  obj_get "senderName" Sample.hola_envelope = JStr "Ana".
Proof.
  apply (senderName_priority Sample.online Sample.hola Sample.private_chat
           Sample.hola_envelope).
  reflexivity.
Defined.

(* ===================================================================== *)
(** ** The text of a request *)
(* ===================================================================== *)

Lemma all_chars_append (ok : ascii -> bool) (a b : string) :
  all_chars ok (String.append a b) = all_chars ok a && all_chars ok b.
Proof.
  induction a as [|c a IH]; [reflexivity|].
  rewrite append_cons. cbn [all_chars]. now rewrite IH, andb_assoc.
Qed.

Lemma escape_not_control (c : ascii) : all_chars not_control (JSON.escape c) = true.
Proof. destruct c as [[] [] [] [] [] [] [] []]; vm_compute; reflexivity. Qed.

Lemma escape_all_not_control (s : string) :
  all_chars not_control (JSON.escape_all s) = true.
Proof.
  induction s as [|c s IH]; [reflexivity|]. cbn [JSON.escape_all].
  now rewrite all_chars_append, escape_not_control, IH.
Qed.

Lemma quote_not_control (s : string) :
  all_chars not_control (JSON.quote s) = true.
Proof.
  unfold JSON.quote. cbn [all_chars].
  rewrite all_chars_append, escape_all_not_control. reflexivity.
Qed.

Lemma uint_not_control (d : Decimal.uint) :
  all_chars not_control (NilEmpty.string_of_uint d) = true.
Proof. induction d; cbn [NilEmpty.string_of_uint all_chars]; auto. Qed.

Lemma number_not_control (n : Z) :
  all_chars not_control (JSON.number n) = true.
Proof.
  assert (forall d, all_chars not_control (NilZero.string_of_uint d) = true)
    as Hu.
  { intros d. destruct d; try reflexivity;
      match goal with
      | |- context [NilZero.string_of_uint ?x] => exact (uint_not_control x)
      end. }
  unfold JSON.number, NilZero.string_of_int.
  destruct (Z.to_int n) as [d|d]; [apply Hu|].
  cbn [all_chars]. now rewrite Hu.
Qed.

Lemma stringify_not_control (o : obj) :
  all_chars not_control (JSON.stringify o) = true.
Proof.
  assert (forall kv text, JSON.member kv = Some text ->
                          all_chars not_control text = true) as Hmember.
  { intros [k v] text. unfold JSON.member. cbn [fst snd].
    destruct (JSON.value v) as [t|] eqn:V; [|discriminate].
    intros H. injection H as <-.
    rewrite !all_chars_append, quote_not_control. cbn [all_chars andb].
    destruct v as [| |[]|n|s]; cbn [JSON.value] in V; try discriminate;
      injection V as <-; try reflexivity;
      [apply number_not_control | apply quote_not_control]. }
  assert (forall parts, (forall t, In t parts -> all_chars not_control t = true) ->
                        all_chars not_control (JSON.join "," parts) = true)
    as Hjoin.
  { induction parts as [|t parts IH]; [reflexivity|]. intros Hall.
    destruct parts as [|t' parts]; [apply Hall; now left|].
    change (JSON.join "," (t :: t' :: parts))
      with (String.append t (String.append "," (JSON.join "," (t' :: parts)))).
    rewrite !all_chars_append, (Hall t (or_introl eq_refl)).
    cbn [all_chars andb]. apply IH. intros x Hx. apply Hall. now right. }
  unfold JSON.stringify. rewrite !all_chars_append. cbn [all_chars].
  change (not_control "{") with true. change (not_control "}") with true.
  cbn [andb]. rewrite andb_true_r. apply Hjoin. intros t Ht.
  apply list_elem_of_In, list_elem_of_omap in Ht.
  destruct Ht as (kv & _ & Hkv). now apply (Hmember kv).
Qed.

(** X21: the body of every POST is free of control characters, whatever
    the message holds: line breaks and the like in a text, a name or a
    file name travel as escapes, and the body is one line. *)
Theorem post_body_is_one_line (cfg : config) (w : world) (ev : event)
    (url : string) (headers : gmap string string) (body : string) :
  In (Fetch url headers body) (trace (handle cfg w ev)) ->
  all_chars not_control body = true.
Proof.
  intros Hin.
  apply (in_filter_fetch (Fetch url headers body) _ eq_refl) in Hin.
  destruct (requests_of_event cfg w ev) as [H | (o & H)]; rewrite H in Hin;
    [contradiction|].
  destruct Hin as [Heq | []]. injection Heq as _ _ <-.
  apply stringify_not_control.
Qed.

(* ===================================================================== *)
(** ** The signature *)
(* ===================================================================== *)

Lemma be_bytes_bytes (n : nat) (x : Z) :
  List.length (Bytes.be_bytes n x) = n
  /\ List.Forall is_byte (Bytes.be_bytes n x).
Proof.
  induction n as [|n [IHl IHb]]; [split; [reflexivity | constructor]|].
  cbn [Bytes.be_bytes List.length]. split; [now rewrite IHl|].
  constructor; [|exact IHb]. unfold is_byte.
  change 255%Z with (Z.ones 8). rewrite Z.land_ones by lia.
  apply Z.mod_pos_bound. lia.
Qed.

Lemma compress_length (h block : list Z) :
  List.length h = 8%nat -> List.length (SHA256.compress h block) = 8%nat.
Proof.
  intros Hh. unfold SHA256.compress.
  rewrite List.length_map, List.length_combine, Hh. reflexivity.
Qed.

Lemma digest_bytes (msg : list Z) :
  List.length (SHA256.digest msg) = 32%nat
  /\ List.Forall is_byte (SHA256.digest msg).
Proof.
  unfold SHA256.digest.
  set (blocks := SHA256.chunks _ 64 _).
  assert (forall h, List.length h = 8%nat ->
                    List.length (List.fold_left SHA256.compress blocks h) = 8%nat)
    as Hfold.
  { induction blocks as [|b bs IH]; intros h Hh; [exact Hh|].
    cbn [List.fold_left]. apply IH. now apply compress_length. }
  specialize (Hfold SHA256.H0 eq_refl).
  set (h := List.fold_left SHA256.compress blocks SHA256.H0) in *.
  clearbody h. clear blocks.
  do 9 (destruct h as [|? h]; try discriminate). split; [reflexivity|].
  cbn [List.map List.concat].
  repeat (apply List.Forall_app; split; [apply be_bytes_bytes|]).
  constructor.
Qed.

Lemma to_hex_length (bs : list Z) :
  String.length (Bytes.to_hex bs) = (2 * List.length bs)%nat.
Proof.
  induction bs as [|b bs IH]; [reflexivity|].
  cbn [Bytes.to_hex String.length List.length]. rewrite IH. lia.
Qed.

Lemma to_hex_digits (bs : list Z) :
  List.Forall is_byte bs -> all_chars is_hex_digit (Bytes.to_hex bs) = true.
Proof.
  assert (List.forallb (fun n =>
            is_hex_digit (Bytes.hex_digit (Z.shiftr (Z.of_nat n) 4))
            && is_hex_digit (Bytes.hex_digit (Z.land (Z.of_nat n) 15)))
            (List.seq 0 256) = true) as Hall by (vm_compute; reflexivity).
  rewrite forallb_forall in Hall.
  induction 1 as [|b bs Hb _ IH]; [reflexivity|].
  cbn [Bytes.to_hex all_chars]. rewrite IH.
  specialize (Hall (Z.to_nat b)). rewrite Z2Nat.id in Hall by (destruct Hb; lia).
  rewrite andb_true_r. apply Hall.
  apply in_seq. destruct Hb. lia.
Qed.

(** X22: with a secret configured, [x-signature] is always 64 characters,
    each one of [0-9a-f], whatever the body and the secret. *)
Theorem signature_is_64_hex_digits (secret body : string) :
  secret <> "" ->
  exists signature,
    sign_headers secret body !! "x-signature" = Some signature
    /\ String.length signature = 64%nat
    /\ all_chars is_hex_digit signature = true.
Proof.
  intros Hne. exists (createHmac_sha256_hex secret body).
  rewrite (sign_headers_signed _ _ Hne). split; [apply lookup_insert_eq|].
  unfold createHmac_sha256_hex, SHA256.hmac.
  match goal with
  | |- context [Bytes.to_hex (SHA256.digest ?m)] =>
      destruct (digest_bytes m) as [Hlen Hbytes]
  end.
  split; [now rewrite to_hex_length, Hlen | now apply to_hex_digits].
Qed.

Lemma signature_is_64_hex_digits_witness :
  exists signature,
    sign_headers "s3cr3t" "{}" !! "x-signature" = Some signature
    /\ String.length signature = 64%nat
    /\ all_chars is_hex_digit signature = true.
Proof. apply signature_is_64_hex_digits. discriminate. Defined.

(* ===================================================================== *)
(** ** Strings in the body *)
(* ===================================================================== *)

Lemma json_unescape_escape (c : ascii) (rest : string) :
  json_unescape (String.append (JSON.escape c) rest)
  = option_map (String c) (json_unescape rest).
Proof.
  destruct c as [[] [] [] [] [] [] [] []]; reflexivity.
Qed.

(** X23: what [JSON.stringify] writes between the quotes of a string reads
    back, by the JSON grammar, as that very string: quotes, backslashes and
    control characters in a message cannot end the string early or change
    what the sink reads. *)
Theorem json_string_round_trip (s : string) :
  json_unescape (JSON.escape_all s) = Some s.
Proof.
  induction s as [|c s IH]; [reflexivity|]. cbn [JSON.escape_all].
  now rewrite json_unescape_escape, IH.
Qed.

Lemma post_body_is_one_line_witness :
  all_chars not_control (JSON.stringify Sample.hola_envelope) = true.
Proof.
  apply (post_body_is_one_line Sample.cfg_open Sample.online
           (MessageEv Sample.hola) (IA_ENDPOINT Sample.cfg_open)
           (sign_headers "" (JSON.stringify Sample.hola_envelope))).
  cbn. right. right. left. reflexivity.
Defined.

(** X24: the body that the ready handler posts to clear the QR code is
    never the body of a QR event, whatever the code is (the code [null]
    included): the sink can tell the two apart. *)
Theorem ready_body_is_no_qr_body (qr : string) :
  JSON.stringify [("qr", JNull)] <> JSON.stringify [("qr", JStr qr)].
Proof.
  unfold JSON.stringify, JSON.member, JSON.value, JSON.quote.
  cbn [omap list_omap snd fst JSON.join JSON.escape_all].
  intros H. vm_compute in H. discriminate H.
Qed.

(** X25: the envelope carries the message's [timestamp] unchanged;
    [author] is the message's author when it has a non-empty one and
    [null] otherwise; [groupName] is the chat's name for a group and
    [null] for any other chat. *)
Theorem envelope_context (w : world) (msg : Message.t) (chat : Chat.t)
    (p : obj) :
  produces (build_payload w msg chat) p ->
  obj_get "timestamp" p = JNum (Message.timestamp msg)
  /\ obj_get "author" p
     = first_nonempty [Message.author msg]
  /\ obj_get "groupName" p
     = (if Chat.isGroup chat then JStr (Chat.name chat) else JNull).
Proof.
  intros Hp. apply produced_payload in Hp.
  assert (js_or (js_opt (Message.author msg)) JNull
          = first_nonempty [Message.author msg]) as Ha.
  { unfold js_or. destruct (Message.author msg) as [a|]; [|reflexivity].
    cbn [js_opt truthy first_nonempty]. now destruct (String.eqb a ""). }
  destruct Hp as [[_ ->] | [_ (m & _ & ->)]]; repeat split; exact Ha.
Qed.

Lemma envelope_context_witness :
  obj_get "timestamp" Sample.hola_envelope = JNum 1700000000.
Proof.
  apply (envelope_context Sample.online Sample.hola Sample.private_chat
           Sample.hola_envelope).
  reflexivity.
Defined.
